(** * Hpfall: the HP freefall disk-protection daemon

    A shallow embedding of [PyHp/hp_disk_protection.py] and the properties
    of its freefall-response state machine.

    The daemon blocks on [/dev/freefall]; each byte read parks the disk heads
    (a write to a sysfs file), lights a LED (another sysfs write) and arms
    [signal.alarm]; the SIGALRM handler unparks and turns the LED off.

    Modelling choices, all visible in the definitions below:
    - the host is a finite map from paths to files with read/write
      permission bits; [open] fails with ENOENT on a missing path and with
      EACCES on a missing permission, and no file is ever created (the
      control surfaces live in sysfs and procfs);
    - the process is a function from a state to a result, a new state and
      the list of externally visible actions it performed (file opens,
      prints, [signal.alarm] calls);
    - what the blocking [read(1)] yields is an input: a script of read
      results, each with the time the call blocked and the changes the
      outside world made to the files meanwhile. A pending alarm whose
      remaining time is not larger than that time fires during the read;
    - a string is a sequence of characters with code points below U+0100,
      which covers the paths and the sensor texts of this program; Python
      integers are [Z];
    - the text of a file is what [f.read()] returns, its bytes being taken
      to decode; [Raw] follows the two sensor reads at the level of bytes,
      where they may not;
    - of [daemonize], the two forks may fail; its other calls are taken to
      succeed, and its opens of [/dev/null] are not among the actions;
    - the asynchronous events are the alarm and the KeyboardInterrupt raised
      in the blocking read; a signal that kills the process outright is not
      part of the model. *)

From Stdlib Require Import ZArith String Ascii List DecimalString DecimalZ Lia.
From stdpp Require Import gmap strings.

Open Scope string_scope.
Open Scope list_scope.

(** ** Python string operations *)

Module PyStr.

(** [str.isspace] for a character below U+0100: TAB..CR, FS..US, SPACE,
    NEL (U+0085) and NBSP (U+00A0). *)
Definition isspace (c : ascii) : bool :=
  let n := N_of_ascii c in
  ((9 <=? n) && (n <=? 13) || (28 <=? n) && (n <=? 32)
   || (n =? 133) || (n =? 160))%N.

Fixpoint lstrip (s : string) : string :=
  match s with
  | EmptyString => EmptyString
  | String c s' => if isspace c then lstrip s' else s
  end.

Fixpoint rstrip (s : string) : string :=
  match s with
  | EmptyString => EmptyString
  | String c s' =>
      match rstrip s' with
      | EmptyString => if isspace c then EmptyString else String c EmptyString
      | r => String c r
      end
  end.

(** [s.strip()] *)
Definition strip (s : string) : string := lstrip (rstrip s).

(** The lower-case form of a character below U+0100: A..Z and the capitals
    U+00C0..U+00DE other than the sign U+00D7 move up by 32. *)
Definition lower_char (c : ascii) : ascii :=
  let n := N_of_ascii c in
  if ((65 <=? n) && (n <=? 90)
      || (192 <=? n) && (n <=? 222) && negb (n =? 215))%N
  then ascii_of_N (n + 32) else c.

(** [s.lower()] *)
Fixpoint lower (s : string) : string :=
  match s with
  | EmptyString => EmptyString
  | String c s' => String (lower_char c) (lower s')
  end.

(** [s.startswith(p)] *)
Definition startswith (p s : string) : bool := String.prefix p s.

(** [s[n:]] *)
Definition slice_from (n : nat) (s : string) : string :=
  substring n (String.length s - n) s.

(** [needle in s] *)
Fixpoint contains (needle s : string) : bool :=
  String.prefix needle s
  || match s with
     | EmptyString => false
     | String _ s' => contains needle s'
     end.

(** [str(z)] for an integer *)
Definition str (z : Z) : string := NilZero.string_of_int (Z.to_int z).

(** [int(s)] where it succeeds *)
Definition int (s : string) : option Z := Z.of_int <$> NilZero.int_of_string s.

End PyStr.

(** ** The host: files, errors, inputs *)

Record File := { contents : string; readable : bool; writable : bool }.

Record OSError := { errno : Z }.

Definition ENOENT : Z := 2.
Definition EINTR : Z := 4.
Definition EIO : Z := 5.
Definition EACCES : Z := 13.

Inductive IOResult (A : Type) : Type :=
| Done (a : A)
| Failed (e : OSError).
Arguments Done {A} a.
Arguments Failed {A} e.

(** What [os.fork()] gives the process that is followed. *)
Inductive Fork :=
| ForkChild                 (* pid == 0 *)
| ForkParent                (* pid > 0 *)
| ForkError (e : OSError).

(** The parts of the host that are consulted once, at startup. *)
Record Host := {
  euid : Z;
  fork1 : Fork;
  fork2 : Fork;
  sched_ok : bool;          (* os.sched_setscheduler succeeds *)
  mlock_ok : bool           (* ctypes loads and mlockall returns 0 *)
}.

(** What one call of [freefall_fd.read(1)] yields. *)
Inductive ReadResult :=
| Data (b : Byte.byte)      (* one byte *)
| Empty                     (* b'' *)
| KeyboardInterrupt         (* raised in the read *)
| ReadError (e : OSError).  (* OSError raised by the read *)

(** One blocking read: the outside world changes files, the call blocks
    for [delay] milliseconds, then yields [result]. *)
Record Input := {
  changes : list (string * option File);
  delay : N;
  result : ReadResult
}.

(** ** Actions and process state *)

Inductive Stream := Stdout | Stderr.

Inductive Exc :=
| ValueError (device : string)      (* f"Invalid device: {device}" *)
| RuntimeError (device : string).   (* f"Cannot access disk protection for {device}" *)

(** The argument of each [print] of the program. *)
Inductive Line :=
| ErrorAccessing (path : string) (e : OSError)  (* f"Error accessing {path}: {e}" *)
| ErrorWriting (path : string) (e : OSError)    (* f"Error writing to {path}: {e}" *)
| ForkFailed (e : OSError)                      (* f"Fork failed: {e}" *)
| WarnScheduling      (* "Warning: Could not set real-time scheduling priority" *)
| WarnMlock           (* "Warning: Could not lock memory pages" *)
| Started (device : string)   (* f"HP Disk Protection daemon started for {device}" *)
| FreefallDetected (count : Z)                  (* f"Freefall detected! Count: {count}" *)
| ShuttingDown        (* "Shutting down HP Disk Protection daemon" *)
| ErrorReading (e : OSError)                    (* f"Error reading freefall device: {e}" *)
| ErrorOpening (path : string) (e : OSError)    (* f"Error opening {path}: {e}" *)
| WarnNotRoot         (* "Warning: This program should be run as root ..." *)
| ErrorLine (e : Exc)                           (* f"Error: {e}" *)
| Help.               (* parser.print_help() *)

Inductive Action :=
| OpenRead (path : string)                  (* open(path, 'r') *)
| OpenWrite (path : string) (text : string) (* open(path, 'w') to write text *)
| Print (out : Stream) (l : Line)
| Alarm (seconds : N).                      (* signal.alarm(seconds) *)

Record Proc := {
  fs : gmap string File;          (* the files of the host *)
  alarm : option N;               (* pending SIGALRM: milliseconds left *)
  device : string;                (* self.device *)
  unload_heads_path : string;     (* self.unload_heads_path *)
  protection_active : bool        (* self.protection_active *)
}.

Definition set_fs (f : gmap string File) (s : Proc) : Proc :=
  {| fs := f; alarm := alarm s; device := device s;
     unload_heads_path := unload_heads_path s;
     protection_active := protection_active s |}.

Definition set_alarm (a : option N) (s : Proc) : Proc :=
  {| fs := fs s; alarm := a; device := device s;
     unload_heads_path := unload_heads_path s;
     protection_active := protection_active s |}.

Definition set_device (d : string) (s : Proc) : Proc :=
  {| fs := fs s; alarm := alarm s; device := d;
     unload_heads_path := unload_heads_path s;
     protection_active := protection_active s |}.

Definition set_unload_heads_path (p : string) (s : Proc) : Proc :=
  {| fs := fs s; alarm := alarm s; device := device s;
     unload_heads_path := p;
     protection_active := protection_active s |}.

Definition set_protection_active (b : bool) (s : Proc) : Proc :=
  {| fs := fs s; alarm := alarm s; device := device s;
     unload_heads_path := unload_heads_path s;
     protection_active := b |}.

(** ** The process monad: state and emitted actions *)

Definition M (A : Type) : Type := Proc -> A * Proc * list Action.

#[global] Instance M_ret : MRet M := λ A a s, (a, s, []).

#[global] Instance M_bind : MBind M := λ A B k m s,
  let '(a, s1, o1) := m s in
  let '(b, s2, o2) := k a s1 in
  (b, s2, o1 ++ o2).

Definition value {A} (r : A * Proc * list Action) : A := r.1.1.
Definition state {A} (r : A * Proc * list Action) : Proc := r.1.2.
Definition actions {A} (r : A * Proc * list Action) : list Action := r.2.

Definition gets {A} (f : Proc -> A) : M A := λ s, (f s, s, []).
Definition modify (f : Proc -> Proc) : M unit := λ s, (tt, f s, []).
Definition emit (a : Action) : M unit := λ s, (tt, s, [a]).

Definition print (out : Stream) (l : Line) : M unit := emit (Print out l).

(** [open(path, 'r')] followed by [f.read()], for files whose bytes decode
    to the text [contents]; what the read does with bytes that do not
    decode is in [Raw] below. *)
Definition open_read (path : string) : M (IOResult string) := λ s,
  (match fs s !! path with
   | None => Failed {| errno := ENOENT |}
   | Some f => if readable f then Done (contents f) else Failed {| errno := EACCES |}
   end, s, [OpenRead path]).

(** [open(path, 'w')] followed by [f.write(text)] *)
Definition open_write (path text : string) : M (IOResult unit) := λ s,
  match fs s !! path with
  | None => (Failed {| errno := ENOENT |}, s, [OpenWrite path text])
  | Some f =>
      if writable f
      then (Done tt,
            set_fs (<[path := {| contents := text; readable := readable f;
                                 writable := writable f |}]> (fs s)) s,
            [OpenWrite path text])
      else (Failed {| errno := EACCES |}, s, [OpenWrite path text])
  end.

(** [signal.alarm(seconds)]: replaces the pending alarm; 0 cancels. *)
Definition signal_alarm (seconds : N) : M unit := λ s,
  (tt, set_alarm (if (seconds =? 0)%N then None else Some (seconds * 1000)%N) s,
   [Alarm seconds]).

(** ** class HPDiskProtection *)

Definition led_path : string := "/sys/class/leds/hp::hddprotect/brightness".
Definition ac_path : string := "/sys/class/power_supply/AC0/online".
Definition lid_path : string := "/proc/acpi/button/lid/LID/state".
Definition freefall_device : string := "/dev/freefall".

Definition _set_unload_heads_path (device : string) : M bool :=
  if (String.length device <=? 5)%nat || negb (PyStr.startswith "/dev/" device)
  then mret false
  else
    let devname := PyStr.slice_from 5 device in
    modify (set_unload_heads_path ("/sys/block/" +:+ devname +:+ "/device/unload_heads"));;
    mret true.

Definition _valid_disk : M bool :=
  path ← gets unload_heads_path;
  r ← open_read path;
  match r with
  | Done _ => mret true
  | Failed e => print Stderr (ErrorAccessing path e);; mret false
  end.

Definition _write_int (path : string) (v : Z) : M bool :=
  r ← open_write path (PyStr.str v);
  match r with
  | Done _ => mret true
  | Failed e => print Stderr (ErrorWriting path e);; mret false
  end.

Definition set_led (on : bool) : M bool :=
  _write_int led_path (if on then 1 else 0)%Z.

Definition protect (seconds : Z) : M bool :=
  path ← gets unload_heads_path;
  _write_int path (seconds * 1000)%Z.

Definition on_ac : M bool :=
  r ← open_read ac_path;
  match r with
  | Done text => mret (String.eqb (PyStr.strip text) "1")
  | Failed _ => mret true
  end.

Definition lid_open : M bool :=
  r ← open_read lid_path;
  match r with
  | Done text => mret (PyStr.contains "open" (PyStr.lower (PyStr.strip text)))
  | Failed _ => mret true
  end.

Definition _signal_handler : M unit :=
  protect 0;;
  set_led false;;
  modify (set_protection_active false).

Definition __init__ (dev : string) : M (Exc + unit) :=
  modify (set_device dev);;
  modify (set_unload_heads_path "");;
  modify (set_protection_active false);;
  ok ← _set_unload_heads_path dev;
  if negb ok then mret (inl (ValueError dev))
  else
    ok ← _valid_disk;
    if negb ok then mret (inl (RuntimeError dev))
    else mret (inr tt).

(** [sys.exit(code)] in [daemonize] is [Some code]; [None] is the daemon
    itself, with its standard streams redirected to [/dev/null]. The calls
    [os.chdir], [os.setsid], [os.umask] and [os.dup2] and the three opens of
    [/dev/null] are taken to succeed, and those opens, which transfer no
    text, are not recorded as actions. *)
Definition daemonize (h : Host) : M (option Z) :=
  match fork1 h with
  | ForkParent => mret (Some 0%Z)
  | ForkError e => print Stderr (ForkFailed e);; mret (Some 1%Z)
  | ForkChild =>
      match fork2 h with
      | ForkParent => mret (Some 0%Z)
      | ForkError e => print Stderr (ForkFailed e);; mret (Some 1%Z)
      | ForkChild => mret None
      end
  end.

(** ** The control loop *)

Definition apply_change (f : gmap string File) (c : string * option File)
  : gmap string File :=
  match c.2 with
  | Some file => <[c.1 := file]> f
  | None => delete c.1 f
  end.

(** The outside world rewrites or removes files. *)
Definition world (cs : list (string * option File)) : M unit :=
  modify (λ s, set_fs (foldl apply_change (fs s) cs) s).

(** [ms] milliseconds pass while the process is blocked in [read]. A
    pending alarm that is due by then is delivered: [_signal_handler]
    runs, and the read goes on. *)
Definition elapse (ms : N) : M unit :=
  a ← gets alarm;
  match a with
  | None => mret tt
  | Some remaining =>
      if (remaining <=? ms)%N
      then modify (set_alarm None);; _signal_handler
      else modify (set_alarm (Some (remaining - ms)%N))
  end.

(** Python's [a() or b()] *)
Definition por (a b : M bool) : M bool :=
  x ← a; if (x : bool) then mret true else b.

Inductive Flow := Continue | Break.

(** One pass through the body of [while True], the read included. *)
Definition iteration (i : Input) : M Flow :=
  world (changes i);;
  elapse (delay i);;
  match result i with
  | Data b =>
      signal_alarm 0;;
      let count := Z.of_N (Byte.to_N b) in
      print Stdout (FreefallDetected count);;
      protect 21;;
      set_led true;;
      modify (set_protection_active true);;
      c ← por on_ac lid_open;
      (if (c : bool) then signal_alarm 2 else signal_alarm 20);;
      mret Continue
  | Empty =>
      signal_alarm 0;;
      mret Continue
  | KeyboardInterrupt =>
      print Stdout ShuttingDown;;
      mret Break
  | ReadError e =>
      if (errno e =? EINTR)%Z
      then mret Continue
      else print Stderr (ErrorReading e);; mret Break
  end.

Inductive LoopEnd :=
| Broke       (* [break] was reached *)
| Blocked.    (* the script is used up: the process sits in [read] *)

Fixpoint loop (script : list Input) : M LoopEnd :=
  match script with
  | [] => mret Blocked
  | i :: rest =>
      f ← iteration i;
      match f with
      | Continue => loop rest
      | Break => mret Broke
      end
  end.

Inductive Outcome :=
| Returned (code : Z)     (* [run] returned [code] *)
| SystemExit (code : Z)   (* [sys.exit(code)] propagated *)
| Waiting.                (* still blocked in [read] *)

(** The [try] block of [run] with its [except (OSError, IOError)] clause.
    [signal.signal(signal.SIGALRM, self._signal_handler)] has no action of
    its own here: [elapse], which only the loop calls, delivers every alarm
    to [_signal_handler]. The calls of [daemonize], the prints and the
    close of the event source are taken to succeed, and the sensor files
    to decode: the open of the event source is then the one place from
    which an OSError reaches the clause. *)
Definition run_try (daemon_mode : bool) (h : Host) (script : list Input) : M Outcome :=
  r ← open_read freefall_device;
  match r with
  | Failed e =>
      print Stderr (ErrorOpening freefall_device e);;
      mret (Returned 1)
  | Done _ =>
      d ← (if daemon_mode then daemonize h else mret None);
      match d with
      | Some code => mret (SystemExit code)
      | None =>
          (if sched_ok h then mret tt else print Stderr WarnScheduling);;
          (if mlock_ok h then mret tt else print Stderr WarnMlock);;
          dev ← gets device;
          print Stdout (Started dev);;
          e ← loop script;
          match e with
          | Broke => mret (Returned 0)
          | Blocked => mret Waiting
          end
      end
  end.

(** The [finally] block of [run]. *)
Definition run_finally : M unit :=
  protect 0;;
  set_led false;;
  mret tt.

Definition run (daemon_mode : bool) (h : Host) (script : list Input) : M Outcome :=
  o ← run_try daemon_mode h script;
  match o with
  | Waiting => mret Waiting
  | _ => run_finally;; mret o
  end.

(** ** main *)

(** [main] after argument parsing: [dev] is [args.device] and [no_daemon]
    is [args.no_daemon]. *)
Definition main (dev : string) (no_daemon : bool) (h : Host) (script : list Input)
  : M Outcome :=
  (if (euid h =? 0)%Z then mret tt else print Stderr WarnNotRoot);;
  r ← __init__ dev;
  match r with
  | inl e =>
      print Stderr (ErrorLine e);;
      print Stdout Help;;
      mret (Returned 1)
  | inr _ => run (negb no_daemon) h script
  end.

(** The status [sys.exit(main())] ends the process with. *)
Definition exit_code (o : Outcome) : option Z :=
  match o with
  | Returned c => Some c
  | SystemExit c => Some c
  | Waiting => None
  end.

(** The process before [main] runs, on a host with the given files. *)
Definition boot (files : gmap string File) : Proc :=
  {| fs := files; alarm := None; device := ""; unload_heads_path := "";
     protection_active := false |}.

(** ** A concrete host, for examples *)

Definition rw (text : string) : File :=
  {| contents := text; readable := true; writable := true |}.

Definition laptop : gmap string File :=
  <[ "/sys/block/sda/device/unload_heads" := rw "0" ]>
  (<[ led_path := rw "0" ]>
  (<[ ac_path := rw "0" ]>
  (<[ lid_path := rw "state:      closed" ]>
  (<[ freefall_device := rw "" ]> ∅)))).

Definition root_host : Host :=
  {| euid := 0; fork1 := ForkChild; fork2 := ForkChild;
     sched_ok := true; mlock_ok := true |}.

Definition event (ms : N) (b : Byte.byte) : Input :=
  {| changes := []; delay := ms; result := Data b |}.

Definition after (ms : N) (r : ReadResult) : Input :=
  {| changes := []; delay := ms; result := r |}.

(** The text of the file at [path], if there is one. *)
Definition file_text (s : Proc) (path : string) : option string :=
  contents <$> fs s !! path.

(** The [open(path, 'w')] calls among a list of actions. *)
Definition is_write (a : Action) : bool :=
  match a with
  | OpenWrite _ _ => true
  | _ => false
  end.

Definition writes (l : list Action) : list Action := List.filter is_write l.

(** Is the file at [path] there and open to writing? *)
Definition can_write (s : Proc) (path : string) : bool :=
  match fs s !! path with
  | Some f => writable f
  | None => false
  end.

(** ** Notions used in the statements *)

(** The head-park path of the device [/dev/<name>]. *)
Definition derived_path (name : string) : string :=
  "/sys/block/" +:+ name +:+ "/device/unload_heads".

(** What [main] prints first when it is not run as root. *)
Definition root_warning (h : Host) : list Action :=
  if (euid h =? 0)%Z then [] else [Print Stderr WarnNotRoot].

(** The error, if any, of opening [path] for writing in state [s]. *)
Definition write_error (s : Proc) (path : string) : option OSError :=
  match fs s !! path with
  | None => Some {| errno := ENOENT |}
  | Some f => if writable f then None else Some {| errno := EACCES |}
  end.

(** The state after an attempt to write [text] to [path]. *)
Definition write_file (path text : string) (s : Proc) : Proc :=
  match fs s !! path with
  | Some f =>
      if writable f
      then set_fs (<[path := {| contents := text; readable := readable f;
                               writable := writable f |}]> (fs s)) s
      else s
  | None => s
  end.

(** The actions of [_write_int]: the open, and the error line if it failed. *)
Definition write_actions (s : Proc) (path text : string) : list Action :=
  OpenWrite path text ::
  match write_error s path with
  | Some e => [Print Stderr (ErrorWriting path e)]
  | None => []
  end.

(** A file that can be neither read nor written. *)
Definition locked (text : string) : File :=
  {| contents := text; readable := false; writable := false |}.

(** State and actions of [protect(0)] followed by [set_led(False)]. *)
Definition unpark (s : Proc) : Proc :=
  write_file led_path "0" (write_file (unload_heads_path s) "0" s).

Definition unpark_actions (s : Proc) : list Action :=
  write_actions s (unload_heads_path s) "0"
  ++ write_actions (write_file (unload_heads_path s) "0" s) led_path "0".

(** State and actions of [protect(21)] followed by [set_led(True)]. *)
Definition park (s : Proc) : Proc :=
  write_file led_path "1" (write_file (unload_heads_path s) "21000" s).

Definition park_actions (s : Proc) : list Action :=
  write_actions s (unload_heads_path s) "21000"
  ++ write_actions (write_file (unload_heads_path s) "21000" s) led_path "1".

(** The seconds chosen by lines 189-192 in state [s]. *)
Definition duration (s : Proc) : N :=
  if value (por on_ac lid_open s) then 2%N else 20%N.

(** The state once the outside world has made the changes of input [i]. *)
Definition changed (i : Input) (s : Proc) : Proc :=
  set_fs (foldl apply_change (fs s) (changes i)) s.

(** The [signal.alarm] calls among a list of actions. *)
Definition alarm_calls (l : list Action) : list Action :=
  List.filter (λ a, match a with Alarm _ => true | _ => false end) l.

(** Does the loop go on after this read result? *)
Definition continues (r : ReadResult) : bool :=
  match r with
  | Data _ | Empty => true
  | KeyboardInterrupt => false
  | ReadError e => (errno e =? EINTR)%Z
  end.



(** The process once the constructor has run for [/dev/sda] on [laptop]. *)
Definition ready : Proc := Eval vm_compute in state (__init__ "/dev/sda" (boot laptop)).

(** Two events, then Ctrl-C. *)
Definition fall_then_stop : list Input :=
  [event 100 Byte.x01; event 500 Byte.x02; after 700 KeyboardInterrupt].

(** [ready] with the given texts in the power and lid files. *)
Definition ready_with (ac_text lid_text : string) : Proc :=
  set_fs (<[ac_path := rw ac_text]> (<[lid_path := rw lid_text]> (fs ready))) ready.

(** [ready] after one freefall event: protecting, alarm pending. *)
Definition after_first_event : Proc :=
  Eval vm_compute in state (iteration (event 100 Byte.x01) ready).


(** A read that yields no event and does not end the loop. *)
Definition idle (r : ReadResult) : bool :=
  match r with
  | Empty => true
  | ReadError e => (errno e =? EINTR)%Z
  | _ => false
  end.

(** Two inputs that differ at most in the byte an event carries. *)
Definition same_but_byte (i j : Input) : Prop :=
  changes i = changes j ∧ delay i = delay j
  ∧ match result i, result j with
    | Data _, Data _ => True
    | a, b => a = b
    end.

(** Blank the count in the "Freefall detected" line. *)
Definition hush (a : Action) : Action :=
  match a with
  | Print out (FreefallDetected _) => Print out (FreefallDetected 0)
  | _ => a
  end.

(** A file that can be read but not written. *)
Definition read_only (text : string) : File :=
  {| contents := text; readable := true; writable := false |}.

(** [ready] on a host whose head-park file refuses writes. *)
Definition ready_read_only : Proc :=
  Eval vm_compute in
    state (__init__ "/dev/sda"
             (boot (<["/sys/block/sda/device/unload_heads" := read_only "0"]> laptop))).

(** One event, then a read that fails with EIO. *)
Definition fall_then_io_error : list Input :=
  [event 100 Byte.x01; after 5 (ReadError {| errno := EIO |})].

(** ** Further notions for the properties of the loop *)

(** The [open(path, 'r')] calls among a list of actions. *)
Definition reads (l : list Action) : list Action :=
  List.filter (λ a, match a with OpenRead _ => true | _ => false end) l.

(** A write the daemon is meant to make: the park or unpark text to the
    head-park path [heads], or "1" or "0" to the LED path. *)
Definition expected_write (heads : string) (a : Action) : Prop :=
  match a with
  | OpenWrite p t =>
      (p = heads ∧ (t = "21000" ∨ t = "0")) ∨ (p = led_path ∧ (t = "1" ∨ t = "0"))
  | _ => True
  end.

(** Is the action one of the three startup warnings? *)
Definition is_warning (a : Action) : bool :=
  match a with
  | Print Stderr WarnNotRoot | Print Stderr WarnScheduling | Print Stderr WarnMlock => true
  | _ => false
  end.

Definition without_warnings (l : list Action) : list Action :=
  List.filter (λ a, negb (is_warning a)) l.

(** Is every character of [s] white space? *)
Fixpoint all_space (s : string) : bool :=
  match s with
  | EmptyString => true
  | String c s' => PyStr.isspace c && all_space s'
  end.

(** ** setup.py: installing and removing the daemon *)

Module Setup.

(** A file of the host: its text and its [st_mode]. *)
Record File := { text : string; mode : Z }.

Inductive Err :=
| FileNotFound (path : string)      (* the path does not exist *)
| SameFile (path : string)          (* shutil.SameFileError *)
| Refused (path : string).          (* any other failure of the call *)

Inductive Line :=
| Text (s : string)
| InstallationFailed (e : Err)      (* f"Installation failed: {e}" *)
| UninstallationFailed (e : Err).   (* f"Uninstallation failed: {e}" *)

Inductive Action :=
| Print (out : Stream) (l : Line)
| Copy (src dst : string)           (* shutil.copy2(src, dst) *)
| Chmod (path : string) (m : Z)     (* path.chmod(m) *)
| Write (path : string) (t : string) (* open(path, 'w') and f.write(t) *)
| Unlink (path : string)            (* path.unlink() *)
| System (cmd : string).            (* os.system(cmd) *)

(** The host outside the file tree: the effective user, the path that
    [Path(__file__).parent / "hp_disk_protection.py"] denotes, the mode a
    newly created file gets, and which file operations the host refuses for
    a reason of its own (permissions, a missing directory, a full disk). *)
Record Host := {
  euid : Z;
  source_file : string;
  new_mode : Z;
  refuses : Action -> bool
}.

Definition M (A : Type) : Type := gmap string File -> A * gmap string File * list Action.

#[global] Instance M_ret : MRet M := λ A a w, (a, w, []).

#[global] Instance M_bind : MBind M := λ A B k m w,
  let '(a, w1, o1) := m w in
  let '(b, w2, o2) := k a w1 in
  (b, w2, o1 ++ o2).

Definition value {A} (r : A * gmap string File * list Action) : A := r.1.1.
Definition files {A} (r : A * gmap string File * list Action) : gmap string File := r.1.2.
Definition actions {A} (r : A * gmap string File * list Action) : list Action := r.2.

Definition print (out : Stream) (s : string) : M unit := λ w, (tt, w, [Print out (Text s)]).

Definition print_line (out : Stream) (l : Line) : M unit := λ w, (tt, w, [Print out l]).

(** [os.system(cmd)]; its status is not looked at. *)
Definition system (cmd : string) : M unit := λ w, (tt, w, [System cmd]).

(** [path.exists()] *)
Definition exists_ (path : string) : M bool := λ w, (bool_decide (is_Some (w !! path)), w, []).

(** [shutil.copy2(src, dst)]: the text and the mode of [src] go to [dst]. *)
Definition copy2 (h : Host) (src dst : string) : M (option Err) := λ w,
  match w !! src with
  | None => (Some (FileNotFound src), w, [Copy src dst])
  | Some f =>
      if bool_decide (src = dst) then (Some (SameFile src), w, [Copy src dst])
      else if refuses h (Copy src dst) then (Some (Refused dst), w, [Copy src dst])
      else (None, <[dst := f]> w, [Copy src dst])
  end.

Definition S_IEXEC : Z := 64.

(** [path.chmod(path.stat().st_mode | stat.S_IEXEC)] *)
Definition chmod_exec (h : Host) (path : string) : M (option Err) := λ w,
  match w !! path with
  | None => (Some (FileNotFound path), w, [])
  | Some f =>
      let m := Z.lor (mode f) S_IEXEC in
      if refuses h (Chmod path m) then (Some (Refused path), w, [Chmod path m])
      else (None, <[path := {| text := text f; mode := m |}]> w, [Chmod path m])
  end.

(** [with open(path, 'w') as f: f.write(t)] *)
Definition write (h : Host) (path t : string) : M (option Err) := λ w,
  if refuses h (Write path t) then (Some (Refused path), w, [Write path t])
  else
    (None,
     <[path := {| text := t;
                  mode := match w !! path with
                          | Some f => mode f
                          | None => new_mode h
                          end |}]> w,
     [Write path t]).

(** [path.unlink()] *)
Definition unlink (h : Host) (path : string) : M (option Err) := λ w,
  match w !! path with
  | None => (Some (FileNotFound path), w, [Unlink path])
  | Some _ =>
      if refuses h (Unlink path) then (Some (Refused path), w, [Unlink path])
      else (None, delete path w, [Unlink path])
  end.

Definition target_bin : string := "/usr/local/bin/hp-disk-protection".
Definition target_service : string := "/etc/systemd/system/hp-disk-protection.service".

Definition newline : string := String (ascii_of_nat 10) EmptyString.

(** The lines of a text, each ended by a newline. *)
Fixpoint unlines (l : list string) : string :=
  match l with
  | [] => ""
  | x :: l' => x +:+ newline +:+ unlines l'
  end.

Definition service_content : string :=
  unlines
    ["[Unit]";
     "Description=HP Disk Protection Daemon";
     "After=multi-user.target";
     "";
     "[Service]";
     "Type=forking";
     "ExecStart=" +:+ target_bin;
     "Restart=always";
     "RestartSec=5";
     "User=root";
     "";
     "[Install]";
     "WantedBy=multi-user.target"].

(** The [try] block: run [op]; if it raises, the [except Exception] clause
    prints [failed e] and returns 1; otherwise go on with [k]. *)
Definition attempt (failed : Err -> Line) (op : M (option Err)) (k : M Z) : M Z :=
  r ← op;
  match r with
  | Some e => print_line Stderr (failed e);; mret 1%Z
  | None => k
  end.

Definition install_daemon (h : Host) : M Z :=
  if negb (euid h =? 0)%Z then
    print Stderr "Error: Installation requires root privileges";;
    print Stderr "Please run: sudo python3 setup.py install";;
    mret 1%Z
  else
    print Stdout ("Installing " +:+ source_file h +:+ " to " +:+ target_bin);;
    attempt InstallationFailed (copy2 h (source_file h) target_bin) (
    attempt InstallationFailed (chmod_exec h target_bin) (
    print Stdout ("Creating systemd service file: " +:+ target_service);;
    attempt InstallationFailed (write h target_service service_content) (
    system "systemctl daemon-reload";;
    print Stdout "Installation completed successfully!";;
    print Stdout "To start the service:";;
    print Stdout "  sudo systemctl start hp-disk-protection";;
    print Stdout "To enable on boot:";;
    print Stdout "  sudo systemctl enable hp-disk-protection";;
    mret 0%Z))).

(** [if path.exists(): print(f"Removing {path}"); path.unlink()] *)
Definition remove_if_present (h : Host) (path : string) : M (option Err) :=
  e ← exists_ path;
  if (e : bool) then print Stdout ("Removing " +:+ path);; unlink h path
  else mret None.

Definition uninstall_daemon (h : Host) : M Z :=
  if negb (euid h =? 0)%Z then
    print Stderr "Error: Uninstallation requires root privileges";;
    print Stderr "Please run: sudo python3 setup.py uninstall";;
    mret 1%Z
  else
    system "systemctl stop hp-disk-protection 2>/dev/null";;
    system "systemctl disable hp-disk-protection 2>/dev/null";;
    attempt UninstallationFailed (remove_if_present h target_service) (
    attempt UninstallationFailed (remove_if_present h target_bin) (
    system "systemctl daemon-reload";;
    print Stdout "Uninstallation completed successfully!";;
    mret 0%Z)).

Definition usage : string := "Usage: python3 setup.py [install|uninstall]".

(** [main], given [sys.argv]. *)
Definition main (h : Host) (argv : list string) : M Z :=
  match argv with
  | [_; arg] =>
      let command := PyStr.lower arg in
      if String.eqb command "install" then install_daemon h
      else if String.eqb command "uninstall" then uninstall_daemon h
      else
        print Stderr ("Unknown command: " +:+ command);;
        print Stderr usage;;
        mret 1%Z
  | _ =>
      print Stderr usage;;
      mret 1%Z
  end.

(** Is [argv] a call with one of the two commands? *)
Definition valid (argv : list string) : Prop :=
  ∃ prog arg, argv = [prog; arg]
              ∧ (PyStr.lower arg = "install" ∨ PyStr.lower arg = "uninstall").

(** Is the action a call that touches the system (not a print)? *)
Definition touches (a : Action) : bool :=
  match a with
  | Print _ _ => false
  | _ => true
  end.

(** A host on which root installs from [/opt/hpfall] and nothing is refused. *)
Definition root : Host :=
  {| euid := 0; source_file := "/opt/hpfall/hp_disk_protection.py";
     new_mode := 33188; refuses := λ _, false |}.

Definition checkout : gmap string File :=
  <["/opt/hpfall/hp_disk_protection.py" := {| text := "#!/usr/bin/env python3"; mode := 33188 |}]> ∅.

End Setup.

(** A pending alarm belongs to a protecting machine and is due within 20
    seconds. *)
Definition alarm_bounded (s : Proc) : Prop :=
  ∀ d, alarm s = Some d → protection_active s = true ∧ (0 < d <= 20000)%N.



(** ** The sensor reads at the level of bytes *)

(** [open(path, 'r')] opens in text mode: [f.read()] decodes the bytes of
    the file with the codec of the locale, and raises UnicodeDecodeError
    where they do not decode. This module follows [on_ac] and [lid_open]
    with that step written out. *)
Module Raw.

(** A sensor file as the kernel serves it: whether [open(path, 'r')]
    succeeds, and what reading its bytes gives. *)
Record File := {
  readable : bool;
  data : IOResult (list Byte.byte)    (* [Failed e]: the read raises OSError *)
}.

Inductive Exception :=
| UnicodeDecodeError.       (* a ValueError, not an OSError *)

(** How a call ends. *)
Inductive Outcome (A : Type) : Type :=
| Returns (a : A)
| Raises (e : Exception).
Arguments Returns {A} a.
Arguments Raises {A} e.

(** What [with open(path, 'r') as f: f.read()] gives. *)
Inductive Read :=
| Text (t : string)
| OSFails (e : OSError)     (* OSError from [open] or from [f.read()] *)
| DecodeFails.              (* UnicodeDecodeError from [f.read()] *)

(** The strict ASCII codec: bytes from 0x80 on do not decode. *)
Fixpoint ascii_codec (bs : list Byte.byte) : option string :=
  match bs with
  | [] => Some EmptyString
  | b :: bs' =>
      if (Byte.to_N b <? 128)%N
      then String (ascii_of_byte b) <$> ascii_codec bs'
      else None
  end.

Section Codec.
(** The codec of the locale; [None] where the bytes do not decode. *)
Variable decode : list Byte.byte → option string.

Definition read_text (files : gmap string File) (path : string) : Read :=
  match files !! path with
  | None => OSFails {| errno := ENOENT |}
  | Some f =>
      if readable f then
        match data f with
        | Done bs =>
            match decode bs with
            | Some t => Text t
            | None => DecodeFails
            end
        | Failed e => OSFails e
        end
      else OSFails {| errno := EACCES |}
  end.

Definition on_ac (files : gmap string File) : Outcome bool :=
  match read_text files ac_path with
  | Text t => Returns (String.eqb (PyStr.strip t) "1")
  | OSFails _ => Returns true                   (* except (OSError, IOError) *)
  | DecodeFails => Raises UnicodeDecodeError    (* no clause of the call catches it *)
  end.

Definition lid_open (files : gmap string File) : Outcome bool :=
  match read_text files lid_path with
  | Text t => Returns (PyStr.contains "open" (PyStr.lower (PyStr.strip t)))
  | OSFails _ => Returns true
  | DecodeFails => Raises UnicodeDecodeError
  end.

(** Do the bytes of the file at [path] arrive and fail to decode? *)
Definition garbled (files : gmap string File) (path : string) : bool :=
  match files !! path with
  | Some f =>
      readable f
      && match data f with
         | Done bs => match decode bs with None => true | Some _ => false end
         | Failed _ => false
         end
  | None => false
  end.
End Codec.

(** Does the open or the read of the file at [path] raise an OSError? *)
Definition os_error (files : gmap string File) (path : string) : bool :=
  match files !! path with
  | Some f =>
      negb (readable f)
      || match data f with
         | Done _ => false
         | Failed _ => true
         end
  | None => true
  end.

(** A power file that holds the byte 0xFF, which neither ASCII nor UTF-8
    decodes, and no lid file. *)
Definition garbled_power : gmap string File :=
  <[ac_path := {| readable := true; data := Done [Byte.xff; Byte.x0a] |}]> ∅.

(** A power file whose read fails with EIO, and a lid file of one byte
    0xFF. *)
Definition garbled_lid : gmap string File :=
  <[ac_path := {| readable := true; data := Failed {| errno := EIO |} |}]>
  (<[lid_path := {| readable := true; data := Done [Byte.xff] |}]> ∅).

End Raw.

(** * Properties *)

(** ** Unfolding the monad *)

(** Run the monad's plumbing, leaving the program's functions folded. *)
Ltac mrun :=
  unfold mbind, M_bind, mret, M_ret, gets, modify, emit, print;
  cbn [mbind M_bind mret M_ret gets modify emit print value state actions
       fst snd negb app
       fs alarm device unload_heads_path protection_active
       set_fs set_alarm set_device set_unload_heads_path set_protection_active].

(** ** Strings *)

Lemma substring_all (s : string) : substring 0 (String.length s) s = s.
Proof. induction s as [|c s IH]; simpl; [reflexivity | now rewrite IH]. Qed.

Lemma slice_from_dev (name : string) : PyStr.slice_from 5 ("/dev/" +:+ name) = name.
Proof. unfold PyStr.slice_from. simpl. rewrite Nat.sub_0_r. apply substring_all. Qed.

Lemma startswith_dev (name : string) : PyStr.startswith "/dev/" ("/dev/" +:+ name) = true.
Proof. destruct name; reflexivity. Qed.

Lemma startswith_dev_inv (dev : string) :
  PyStr.startswith "/dev/" dev = true → dev = "/dev/" +:+ PyStr.slice_from 5 dev.
Proof.
  unfold PyStr.startswith. intros H.
  do 5 (destruct dev as [|? dev]; simpl in H; [discriminate |];
        match type of H with
        | (if ?d then _ else _) = _ => destruct d as [<- |]; [| discriminate]
        end).
  unfold PyStr.slice_from. simpl. now rewrite Nat.sub_0_r, substring_all.
Qed.

Lemma str_int (z : Z) : PyStr.int (PyStr.str z) = Some z.
Proof.
  unfold PyStr.int, PyStr.str.
  rewrite NilZero.isi.
  - simpl. now rewrite DecimalZ.of_to.
  - destruct z; simpl; try discriminate.
    intros [=H]. now apply DecimalPos.Unsigned.to_uint_nonnil in H.
  - destruct z; simpl; try discriminate.
    intros [=H]. now apply DecimalPos.Unsigned.to_uint_nonnil in H.
Qed.

(** ** The assertions of [test_hp_protection.py] *)

Example test_valid_device_path :
  value (_set_unload_heads_path "/dev/sda" (boot ∅)) = true
  ∧ unload_heads_path (state (_set_unload_heads_path "/dev/sda" (boot ∅)))
    = "/sys/block/sda/device/unload_heads".
Proof. split; reflexivity. Qed.

Example test_invalid_device_path :
  value (_set_unload_heads_path "invalid" (boot ∅)) = false
  ∧ value (_set_unload_heads_path "/home/test" (boot ∅)) = false.
Proof. split; reflexivity. Qed.

Example test_write_int :
  let r := _write_int "/tmp/tmpfile" 12345 (boot (<["/tmp/tmpfile" := rw ""]> ∅)) in
  value r = true ∧ file_text (state r) "/tmp/tmpfile" = Some "12345".
Proof. split; vm_compute; reflexivity. Qed.

(** The sensor files as the kernel writes them. *)
Example sensors_read :
  value (on_ac (ready_with "1
" "state:      open
")) = true
  ∧ value (on_ac (ready_with "0
" "state:      open
")) = false
  ∧ value (lid_open (ready_with "0
" "state:      open
")) = true
  ∧ value (lid_open (ready_with "0
" "state:      closed
")) = false.
Proof. repeat split; vm_compute; reflexivity. Qed.

(** White space is what [str.isspace] says: NBSP (U+00A0) and NEL (U+0085)
    are stripped like blanks, and [lower] reaches the capitals from U+00C0
    on, the sign U+00D7 apart. *)
Example strip_beyond_ascii :
  let text := String (ascii_of_N 160) ("1" +:+ String (ascii_of_N 133) "") in
  PyStr.strip text = "1"
  ∧ value (on_ac (ready_with text "state:      closed")) = true
  ∧ PyStr.lower_char (ascii_of_N 201) = ascii_of_N 233
  ∧ PyStr.lower_char (ascii_of_N 215) = ascii_of_N 215.
Proof. repeat split; vm_compute; reflexivity. Qed.

(** ** Handle construction *)

Lemma set_path_rejects (dev : string) (s : Proc) :
  PyStr.startswith "/dev/" dev = false ∨ (String.length dev <= 5)%nat →
  _set_unload_heads_path dev s = (false, s, []).
Proof.
  intros H. unfold _set_unload_heads_path.
  replace ((String.length dev <=? 5)%nat || negb (PyStr.startswith "/dev/" dev))
    with true; [reflexivity |].
  symmetry. destruct H as [-> | H].
  - apply orb_true_r.
  - apply Nat.leb_le in H. now rewrite H.
Qed.

Lemma set_path_accepts (name : string) (s : Proc) :
  name ≠ "" →
  _set_unload_heads_path ("/dev/" +:+ name) s
  = (true, set_unload_heads_path (derived_path name) s, []).
Proof.
  intros Hne. unfold _set_unload_heads_path.
  rewrite startswith_dev, slice_from_dev.
  destruct name as [|c name]; [congruence |]. reflexivity.
Qed.

Lemma set_path_true_inv (dev : string) (s : Proc) :
  value (_set_unload_heads_path dev s) = true →
  ∃ name, dev = "/dev/" +:+ name ∧ name ≠ "".
Proof.
  unfold _set_unload_heads_path.
  destruct (String.length dev <=? 5)%nat eqn:Hlen; simpl; [discriminate |].
  destruct (PyStr.startswith "/dev/" dev) eqn:Hpre; simpl; [| discriminate].
  intros _. exists (PyStr.slice_from 5 dev). split.
  - now apply startswith_dev_inv.
  - intros Hnil. apply startswith_dev_inv in Hpre.
    rewrite Hnil in Hpre. subst dev. discriminate.
Qed.

Lemma init_accepted (name : string) (s : Proc) :
  name ≠ "" →
  __init__ ("/dev/" +:+ name) s =
  let s1 := set_unload_heads_path (derived_path name)
              (set_protection_active false
                 (set_unload_heads_path "" (set_device ("/dev/" +:+ name) s))) in
  match fs s !! derived_path name with
  | None =>
      (inl (RuntimeError ("/dev/" +:+ name)), s1,
       [OpenRead (derived_path name);
        Print Stderr (ErrorAccessing (derived_path name) {| errno := ENOENT |})])
  | Some f =>
      if readable f
      then (inr tt, s1, [OpenRead (derived_path name)])
      else (inl (RuntimeError ("/dev/" +:+ name)), s1,
            [OpenRead (derived_path name);
             Print Stderr (ErrorAccessing (derived_path name) {| errno := EACCES |})])
  end.
Proof.
  intros Hne. unfold __init__. mrun.
  rewrite set_path_accepts by assumption. mrun.
  unfold _valid_disk, open_read. mrun.
  destruct (fs s !! derived_path name) as [f|]; [destruct (readable f) |]; reflexivity.
Qed.

Lemma init_rejected (dev : string) (s : Proc) :
  PyStr.startswith "/dev/" dev = false ∨ (String.length dev <= 5)%nat →
  __init__ dev s =
  (inl (ValueError dev),
   set_protection_active false (set_unload_heads_path "" (set_device dev s)),
   []).
Proof.
  intros H. unfold __init__. mrun.
  rewrite set_path_rejects by assumption. reflexivity.
Qed.

Lemma main_init_error (dev : string) (nd : bool) (h : Host) (script : list Input)
    (s s1 : Proc) (e : Exc) (o : list Action) :
  __init__ dev s = (inl e, s1, o) →
  main dev nd h script s =
  (Returned 1, s1,
   root_warning h ++ o ++ [Print Stderr (ErrorLine e); Print Stdout Help]).
Proof.
  intros H. unfold main, root_warning. mrun.
  destruct (euid h =? 0)%Z; mrun; rewrite H; reflexivity.
Qed.

(** C10. A device string that does not start with "/dev/" or has at most
    five characters is refused by the constructor with [ValueError] before
    anything is opened, and [main] then returns 1 having only printed; a
    string "/dev/<name>" with a non-empty name is accepted, the path derived
    from it is "/sys/block/<name>/device/unload_heads", that path is what
    the constructor probes next, and only such strings are accepted. *)
Theorem device_string_validation (dev : string) (s : Proc) :
  (PyStr.startswith "/dev/" dev = false ∨ (String.length dev <= 5)%nat →
     value (_set_unload_heads_path dev s) = false
     ∧ value (__init__ dev s) = inl (ValueError dev)
     ∧ actions (__init__ dev s) = []
     ∧ fs (state (__init__ dev s)) = fs s
     ∧ ∀ nd h script,
         value (main dev nd h script s) = Returned 1
         ∧ actions (main dev nd h script s) =
           root_warning h ++ [Print Stderr (ErrorLine (ValueError dev));
                              Print Stdout Help])
  ∧ (∀ name, dev = "/dev/" +:+ name → name ≠ "" →
       value (_set_unload_heads_path dev s) = true
       ∧ unload_heads_path (state (_set_unload_heads_path dev s))
         = "/sys/block/" +:+ name +:+ "/device/unload_heads"
       ∧ actions (_set_unload_heads_path dev s) = []
       ∧ unload_heads_path (state (__init__ dev s))
         = "/sys/block/" +:+ name +:+ "/device/unload_heads"
       ∧ ∃ rest, actions (__init__ dev s)
                 = OpenRead ("/sys/block/" +:+ name +:+ "/device/unload_heads") :: rest)
  ∧ (value (_set_unload_heads_path dev s) = true →
       ∃ name, dev = "/dev/" +:+ name ∧ name ≠ "").
Proof.
  split; [| split].
  - intros H. rewrite set_path_rejects by assumption.
    pose proof (init_rejected dev s H) as Hi. rewrite Hi.
    repeat split; try reflexivity;
      rewrite (main_init_error _ _ _ _ _ _ _ _ Hi); reflexivity.
  - intros name -> Hne. rewrite set_path_accepts by assumption.
    rewrite init_accepted by assumption.
    fold (derived_path name). cbn zeta.
    repeat split.
    + destruct (fs s !! derived_path name) as [f|]; [destruct (readable f) |];
        reflexivity.
    + destruct (fs s !! derived_path name) as [f|]; [destruct (readable f) |];
        eexists; reflexivity.
  - apply set_path_true_inv.
Qed.

Lemma device_string_validation_witness :
  value (__init__ "sda" (boot laptop)) = inl (ValueError "sda")
  ∧ value (__init__ "/dev/" (boot laptop)) = inl (ValueError "/dev/")
  ∧ unload_heads_path (state (__init__ "/dev/sda" (boot laptop)))
    = "/sys/block/sda/device/unload_heads".
Proof.
  split; [| split].
  - apply (device_string_validation "sda" (boot laptop)).
    left. reflexivity.
  - apply (device_string_validation "/dev/" (boot laptop)).
    right. simpl. lia.
  - apply (proj1 (proj2 (device_string_validation "/dev/sda" (boot laptop))) "sda").
    + reflexivity.
    + discriminate.
Defined.

(** C7. When the derived head-park path cannot be opened for reading, the
    constructor raises [RuntimeError]; [main] prints the diagnostics and
    returns 1, and nothing of [run] happens: the event source is not
    opened, no read result is consumed, no file is written and no alarm is
    armed. *)
Theorem probe_failure_is_fatal (name : string) (nd : bool) (h : Host)
    (script : list Input) (s : Proc) (e : OSError) :
  name ≠ "" →
  value (open_read (derived_path name) s) = Failed e →
  let dev := "/dev/" +:+ name in
  let r := main dev nd h script s in
  value (_valid_disk (set_unload_heads_path (derived_path name) s)) = false
  ∧ value (__init__ dev s) = inl (RuntimeError dev)
  ∧ value r = Returned 1
  ∧ exit_code (value r) = Some 1%Z
  ∧ actions r =
    root_warning h ++
    [OpenRead (derived_path name);
     Print Stderr (ErrorAccessing (derived_path name) e);
     Print Stderr (ErrorLine (RuntimeError dev));
     Print Stdout Help]
  ∧ fs (state r) = fs s
  ∧ alarm (state r) = alarm s.
Proof.
  intros Hne Hopen dev r.
  assert (Hi : ∃ s1, __init__ dev s =
             (inl (RuntimeError dev), s1,
              [OpenRead (derived_path name);
               Print Stderr (ErrorAccessing (derived_path name) e)])
             ∧ fs s1 = fs s ∧ alarm s1 = alarm s).
  { subst dev. rewrite init_accepted by assumption. cbn zeta.
    unfold open_read, value in Hopen. cbn in Hopen.
    destruct (fs s !! derived_path name) as [f|]; [destruct (readable f) |];
      try discriminate; injection Hopen as <-; eexists; repeat split. }
  destruct Hi as (s1 & Hi & Hfs & Hal).
  split.
  { unfold _valid_disk, open_read in *. mrun. unfold value in *. cbn in *.
    destruct (fs s !! derived_path name) as [f|]; [destruct (readable f) |];
      try discriminate; reflexivity. }
  subst r. rewrite (main_init_error _ _ _ _ _ _ _ _ Hi). rewrite Hi.
  repeat split; assumption.
Qed.

Lemma probe_failure_is_fatal_witness :
  value (main "/dev/sdb" true root_host [event 10 Byte.x01] (boot laptop))
  = Returned 1.
Proof.
  apply (probe_failure_is_fatal "sdb" true root_host [event 10 Byte.x01]
           (boot laptop) {| errno := ENOENT |}).
  - discriminate.
  - vm_compute. reflexivity.
Defined.

(** ** Writes to control surfaces, in closed form *)

Lemma write_int_eq (path : string) (v : Z) (s : Proc) :
  _write_int path v s =
  (can_write s path, write_file path (PyStr.str v) s,
   write_actions s path (PyStr.str v)).
Proof.
  unfold _write_int, open_write, can_write, write_file, write_actions, write_error.
  mrun.
  destruct (fs s !! path) as [f|]; [destruct (writable f) |]; reflexivity.
Qed.

Lemma protect_eq (seconds : Z) (s : Proc) :
  protect seconds s =
  (can_write s (unload_heads_path s),
   write_file (unload_heads_path s) (PyStr.str (seconds * 1000)) s,
   write_actions s (unload_heads_path s) (PyStr.str (seconds * 1000))).
Proof. unfold protect. mrun. now rewrite write_int_eq. Qed.

Lemma set_led_eq (on : bool) (s : Proc) :
  set_led on s =
  (can_write s led_path, write_file led_path (if on then "1" else "0") s,
   write_actions s led_path (if on then "1" else "0")).
Proof. unfold set_led. rewrite write_int_eq. now destruct on. Qed.

Lemma writes_write_actions (s : Proc) (path text : string) :
  writes (write_actions s path text) = [OpenWrite path text].
Proof. unfold write_actions. now destruct (write_error s path). Qed.

Lemma writes_app (l1 l2 : list Action) : writes (l1 ++ l2) = writes l1 ++ writes l2.
Proof. apply List.filter_app. Qed.

Section WriteFile.
Variables (path text : string) (s : Proc).

Lemma write_file_alarm : alarm (write_file path text s) = alarm s.
Proof.
  unfold write_file.
  now destruct (fs s !! path) as [f|]; [destruct (writable f) |].
Qed.

Lemma write_file_device : device (write_file path text s) = device s.
Proof.
  unfold write_file.
  now destruct (fs s !! path) as [f|]; [destruct (writable f) |].
Qed.

Lemma write_file_heads_path :
  unload_heads_path (write_file path text s) = unload_heads_path s.
Proof.
  unfold write_file.
  now destruct (fs s !! path) as [f|]; [destruct (writable f) |].
Qed.

Lemma write_file_active :
  protection_active (write_file path text s) = protection_active s.
Proof.
  unfold write_file.
  now destruct (fs s !! path) as [f|]; [destruct (writable f) |].
Qed.

Lemma write_file_can_write (p : string) :
  can_write (write_file path text s) p = can_write s p.
Proof.
  unfold write_file, can_write.
  destruct (fs s !! path) as [f|] eqn:Hf; [destruct (writable f) eqn:Hw |];
    try reflexivity.
  cbn. destruct (decide (path = p)) as [<- | Hne].
  - rewrite lookup_insert_eq, Hf. cbn. now rewrite Hw.
  - now rewrite lookup_insert_ne.
Qed.

Lemma write_file_text_same :
  can_write s path = true → file_text (write_file path text s) path = Some text.
Proof.
  unfold write_file, can_write, file_text.
  destruct (fs s !! path) as [f|] eqn:Hf; [| discriminate].
  intros ->. cbn. now rewrite lookup_insert_eq.
Qed.

Lemma write_file_text_other (p : string) :
  p ≠ path → file_text (write_file path text s) p = file_text s p.
Proof.
  intros Hne. unfold write_file, file_text.
  destruct (fs s !! path) as [f|] eqn:Hf; [destruct (writable f) |];
    try reflexivity.
  cbn. now rewrite lookup_insert_ne.
Qed.

Lemma write_file_unwritable : can_write s path = false → write_file path text s = s.
Proof.
  unfold write_file, can_write.
  destruct (fs s !! path) as [f|]; [| reflexivity]. now intros ->.
Qed.
End WriteFile.

(** ** Environment sensors *)

(** X26. When the open of the power-status file fails, [on_ac] returns
    [True]; when the open of the lid-state file fails, [lid_open] returns
    [True]. In both cases the call only attempted the open: it printed
    nothing and left the state as it was. *)
Theorem sensors_fail_open (s : Proc) :
  (∀ e, value (open_read ac_path s) = Failed e →
        on_ac s = (true, s, [OpenRead ac_path]))
  ∧ (∀ e, value (open_read lid_path s) = Failed e →
          lid_open s = (true, s, [OpenRead lid_path])).
Proof.
  split; intros e; unfold on_ac, lid_open, open_read, value; mrun;
    cbn [fst snd].
  - destruct (fs s !! ac_path) as [f|]; [destruct (readable f) |];
      try discriminate; reflexivity.
  - destruct (fs s !! lid_path) as [f|]; [destruct (readable f) |];
      try discriminate; reflexivity.
Qed.

Lemma sensors_fail_open_witness :
  on_ac (boot ∅) = (true, boot ∅, [OpenRead ac_path])
  ∧ lid_open (boot (<[lid_path := locked "state:      closed"]> ∅))
    = (true, boot (<[lid_path := locked "state:      closed"]> ∅),
       [OpenRead lid_path]).
Proof.
  split.
  - apply (proj1 (sensors_fail_open (boot ∅)) {| errno := ENOENT |}).
    reflexivity.
  - apply (proj2 (sensors_fail_open
                    (boot (<[lid_path := locked "state:      closed"]> ∅)))
             {| errno := EACCES |}).
    vm_compute. reflexivity.
Defined.

Lemma raw_read_text_os_error (decode : list Byte.byte → option string)
    (files : gmap string Raw.File) (path : string) :
  Raw.os_error files path = true →
  ∃ e, Raw.read_text decode files path = Raw.OSFails e.
Proof.
  unfold Raw.os_error, Raw.read_text.
  destruct (files !! path) as [f|]; [| now eexists].
  destruct (Raw.readable f); cbn; [| now eexists].
  destruct (Raw.data f) as [bs|e]; [discriminate | now eexists].
Qed.

Lemma raw_read_text_garbled (decode : list Byte.byte → option string)
    (files : gmap string Raw.File) (path : string) :
  Raw.garbled decode files path = true →
  Raw.read_text decode files path = Raw.DecodeFails.
Proof.
  unfold Raw.garbled, Raw.read_text.
  destruct (files !! path) as [f|]; [| discriminate].
  destruct (Raw.readable f); cbn; [| discriminate].
  destruct (Raw.data f) as [bs|e]; [| discriminate].
  now destruct (decode bs).
Qed.

(** Where the byte-level calls return, they return what [on_ac] and
    [lid_open] return on the decoded text. *)
Lemma raw_sensors_agree (decode : list Byte.byte → option string)
    (files : gmap string Raw.File) (s : Proc) :
  (∀ path, match Raw.read_text decode files path with
           | Raw.Text t => value (open_read path s) = Done t
           | Raw.OSFails _ => ∃ e, value (open_read path s) = Failed e
           | Raw.DecodeFails => True
           end) →
  (∀ b, Raw.on_ac decode files = Raw.Returns b → value (on_ac s) = b)
  ∧ (∀ b, Raw.lid_open decode files = Raw.Returns b → value (lid_open s) = b).
Proof.
  intros H. split; intros b.
  - specialize (H ac_path). unfold Raw.on_ac.
    destruct (Raw.read_text decode files ac_path) as [t|e|]; [| | discriminate];
      intros [= <-]; revert H; unfold on_ac, open_read, value; mrun;
      cbn [fst snd]; destruct (fs s !! ac_path) as [f|];
      [destruct (readable f) | | destruct (readable f) |]; cbn;
      try (now intros [= ->]); try discriminate; try reflexivity;
      now intros [e' [=]].
  - specialize (H lid_path). unfold Raw.lid_open.
    destruct (Raw.read_text decode files lid_path) as [t|e|]; [| | discriminate];
      intros [= <-]; revert H; unfold lid_open, open_read, value; mrun;
      cbn [fst snd]; destruct (fs s !! lid_path) as [f|];
      [destruct (readable f) | | destruct (readable f) |]; cbn;
      try (now intros [= ->]); try discriminate; try reflexivity;
      now intros [e' [=]].
Qed.

(** C5. A failed sensor read is not always answered with [True]. When the
    open or the read of the power-status (lid-state) file raises an
    OSError, [on_ac] ([lid_open]) returns [True]. When the file opens and
    its bytes arrive but do not decode, [f.read()] raises
    UnicodeDecodeError, which is no OSError: the clause
    [except (OSError, IOError)] does not catch it and the call raises it
    to its caller. *)
Theorem sensor_decode_error_escapes (decode : list Byte.byte → option string)
    (files : gmap string Raw.File) :
  (Raw.os_error files ac_path = true → Raw.on_ac decode files = Raw.Returns true)
  ∧ (Raw.os_error files lid_path = true →
     Raw.lid_open decode files = Raw.Returns true)
  ∧ (Raw.garbled decode files ac_path = true →
     Raw.on_ac decode files = Raw.Raises Raw.UnicodeDecodeError)
  ∧ (Raw.garbled decode files lid_path = true →
     Raw.lid_open decode files = Raw.Raises Raw.UnicodeDecodeError).
Proof.
  unfold Raw.on_ac, Raw.lid_open. split; [| split; [| split]]; intros H.
  - now destruct (raw_read_text_os_error decode files ac_path H) as [e ->].
  - now destruct (raw_read_text_os_error decode files lid_path H) as [e ->].
  - now rewrite (raw_read_text_garbled decode files ac_path H).
  - now rewrite (raw_read_text_garbled decode files lid_path H).
Qed.

Lemma sensor_decode_error_escapes_witness :
  (Raw.on_ac Raw.ascii_codec Raw.garbled_power = Raw.Raises Raw.UnicodeDecodeError
   ∧ Raw.lid_open Raw.ascii_codec Raw.garbled_power = Raw.Returns true)
  ∧ (Raw.on_ac Raw.ascii_codec Raw.garbled_lid = Raw.Returns true
     ∧ Raw.lid_open Raw.ascii_codec Raw.garbled_lid
       = Raw.Raises Raw.UnicodeDecodeError).
Proof.
  split; split.
  - apply (proj1 (proj2 (proj2
             (sensor_decode_error_escapes Raw.ascii_codec Raw.garbled_power)))).
    vm_compute. reflexivity.
  - apply (proj1 (proj2
             (sensor_decode_error_escapes Raw.ascii_codec Raw.garbled_power))).
    vm_compute. reflexivity.
  - apply (proj1 (sensor_decode_error_escapes Raw.ascii_codec Raw.garbled_lid)).
    vm_compute. reflexivity.
  - apply (proj2 (proj2 (proj2
             (sensor_decode_error_escapes Raw.ascii_codec Raw.garbled_lid)))).
    vm_compute. reflexivity.
Defined.

(** ** The handler, the cleanup and one loop iteration in closed form *)

Lemma signal_alarm_0 (s : Proc) : signal_alarm 0 s = (tt, set_alarm None s, [Alarm 0]).
Proof. reflexivity. Qed.

Lemma signal_handler_eq (s : Proc) :
  _signal_handler s = (tt, set_protection_active false (unpark s), unpark_actions s).
Proof.
  unfold _signal_handler. mrun. rewrite protect_eq, set_led_eq.
  unfold unpark_actions. now rewrite app_nil_r.
Qed.

Lemma run_finally_eq (s : Proc) :
  run_finally s = (tt, unpark s, unpark_actions s).
Proof.
  unfold run_finally. mrun. rewrite protect_eq, set_led_eq.
  unfold unpark_actions. now rewrite app_nil_r.
Qed.

Lemma elapse_eq (ms : N) (s : Proc) :
  elapse ms s =
  match alarm s with
  | None => (tt, s, [])
  | Some d =>
      if (d <=? ms)%N
      then (tt, set_protection_active false (unpark (set_alarm None s)),
            unpark_actions (set_alarm None s))
      else (tt, set_alarm (Some (d - ms)%N) s, [])
  end.
Proof.
  unfold elapse. mrun.
  destruct (alarm s) as [d|]; [| reflexivity].
  destruct (d <=? ms)%N; [| reflexivity].
  mrun. now rewrite signal_handler_eq.
Qed.

Lemma sensors_state (s : Proc) : state (por on_ac lid_open s) = s.
Proof.
  unfold por, on_ac, lid_open, open_read, state. mrun.
  destruct (fs s !! ac_path) as [f|]; [destruct (readable f) |]; cbn;
    try reflexivity.
  destruct (String.eqb _ _); cbn; [reflexivity |].
  destruct (fs s !! lid_path) as [g|]; [destruct (readable g) |]; reflexivity.
Qed.

Lemma iteration_data (i : Input) (b : Byte.byte) (s : Proc) :
  result i = Data b →
  iteration i s =
  let s1 := state (elapse (delay i) (changed i s)) in
  let s2 := set_protection_active true (park (set_alarm None s1)) in
  (Continue,
   set_alarm (Some (duration s2 * 1000)%N) s2,
   actions (elapse (delay i) (changed i s))
   ++ [Alarm 0; Print Stdout (FreefallDetected (Z.of_N (Byte.to_N b)))]
   ++ park_actions (set_alarm None s1)
   ++ actions (por on_ac lid_open s2)
   ++ [Alarm (duration s2)]).
Proof.
  intros Hr. unfold iteration, world. rewrite Hr. mrun.
  fold (changed i s).
  destruct (elapse (delay i) (changed i s)) as [[[] s1] o1].
  rewrite signal_alarm_0. mrun.
  rewrite protect_eq, set_led_eq.
  change (PyStr.str (21 * 1000)) with "21000".
  unfold duration, park, park_actions, value, actions. mrun.
  match goal with
  | |- context [por on_ac lid_open ?x] =>
      pose proof (sensors_state x) as Hs; unfold state in Hs;
      destruct (por on_ac lid_open x) as [[c s3] o3]
  end.
  cbn in Hs. subst s3.
  destruct c; unfold signal_alarm; cbn; rewrite ?app_nil_r, <- ?app_assoc;
    reflexivity.
Qed.

Lemma iteration_empty (i : Input) (s : Proc) :
  result i = Empty →
  iteration i s =
  (Continue, set_alarm None (state (elapse (delay i) (changed i s))),
   actions (elapse (delay i) (changed i s)) ++ [Alarm 0]).
Proof.
  intros Hr. unfold iteration, world. rewrite Hr. mrun. fold (changed i s).
  destruct (elapse (delay i) (changed i s)) as [[[] s1] o1].
  rewrite signal_alarm_0. reflexivity.
Qed.

Lemma iteration_interrupt (i : Input) (s : Proc) :
  result i = KeyboardInterrupt →
  iteration i s =
  (Break, state (elapse (delay i) (changed i s)),
   actions (elapse (delay i) (changed i s)) ++ [Print Stdout ShuttingDown]).
Proof.
  intros Hr. unfold iteration, world. rewrite Hr. mrun. fold (changed i s).
  now destruct (elapse (delay i) (changed i s)) as [[[] s1] o1].
Qed.

Lemma iteration_eintr (i : Input) (e : OSError) (s : Proc) :
  result i = ReadError e → errno e = EINTR →
  iteration i s =
  (Continue, state (elapse (delay i) (changed i s)),
   actions (elapse (delay i) (changed i s))).
Proof.
  intros Hr He. unfold iteration, world. rewrite Hr, He. mrun. fold (changed i s).
  destruct (elapse (delay i) (changed i s)) as [[[] s1] o1].
  cbn. now rewrite app_nil_r.
Qed.

Lemma iteration_error (i : Input) (e : OSError) (s : Proc) :
  result i = ReadError e → errno e ≠ EINTR →
  iteration i s =
  (Break, state (elapse (delay i) (changed i s)),
   actions (elapse (delay i) (changed i s)) ++ [Print Stderr (ErrorReading e)]).
Proof.
  intros Hr He. unfold iteration, world. rewrite Hr.
  apply Z.eqb_neq in He. rewrite He. mrun. fold (changed i s).
  now destruct (elapse (delay i) (changed i s)) as [[[] s1] o1].
Qed.

Lemma iteration_flow (i : Input) (s : Proc) :
  value (iteration i s) = if continues (result i) then Continue else Break.
Proof.
  destruct (result i) as [b| | |e] eqn:Hr; cbn.
  - now rewrite (iteration_data i b s Hr).
  - now rewrite (iteration_empty i s Hr).
  - now rewrite (iteration_interrupt i s Hr).
  - destruct (Z.eqb_spec (errno e) EINTR) as [He|He].
    + now rewrite (iteration_eintr i e s Hr He).
    + now rewrite (iteration_error i e s Hr He).
Qed.

Lemma loop_cons (i : Input) (rest : list Input) (s : Proc) :
  loop (i :: rest) s =
  let s1 := state (iteration i s) in
  if continues (result i)
  then (value (loop rest s1), state (loop rest s1),
        actions (iteration i s) ++ actions (loop rest s1))
  else (Broke, s1, actions (iteration i s)).
Proof.
  cbn [loop]. mrun. pose proof (iteration_flow i s) as Hf.
  unfold value, state, actions in *.
  destruct (iteration i s) as [[f s1] o1]. cbn in *. subst f.
  destruct (continues (result i)).
  - now destruct (loop rest s1) as [[e s2] o2].
  - now rewrite app_nil_r.
Qed.


Lemma loop_blocked (pre : list Input) (s : Proc) :
  Forall (λ i, continues (result i) = true) pre → value (loop pre s) = Blocked.
Proof.
  intros H. revert s. induction H as [|i pre Hi _ IH]; intros s; [reflexivity |].
  rewrite loop_cons, Hi. cbn. apply IH.
Qed.


(** ** What the loop leaves alone *)

Lemma unpark_heads_path (s : Proc) : unload_heads_path (unpark s) = unload_heads_path s.
Proof. unfold unpark. now rewrite !write_file_heads_path. Qed.

Lemma park_heads_path (s : Proc) : unload_heads_path (park s) = unload_heads_path s.
Proof. unfold park. now rewrite !write_file_heads_path. Qed.

Lemma elapse_heads_path (ms : N) (s : Proc) :
  unload_heads_path (state (elapse ms s)) = unload_heads_path s.
Proof.
  rewrite elapse_eq. destruct (alarm s) as [d|]; [| reflexivity].
  destruct (d <=? ms)%N; cbn; [| reflexivity]. now rewrite unpark_heads_path.
Qed.

Lemma iteration_heads_path (i : Input) (s : Proc) :
  unload_heads_path (state (iteration i s)) = unload_heads_path s.
Proof.
  pose proof (elapse_heads_path (delay i) (changed i s)) as He. cbn in He.
  destruct (result i) as [b| | |e] eqn:Hr.
  - rewrite (iteration_data i b s Hr). cbn. now rewrite park_heads_path.
  - now rewrite (iteration_empty i s Hr).
  - now rewrite (iteration_interrupt i s Hr).
  - destruct (Z.eq_dec (errno e) EINTR) as [Hi|Hi].
    + now rewrite (iteration_eintr i e s Hr Hi).
    + now rewrite (iteration_error i e s Hr Hi).
Qed.

Lemma loop_heads_path (script : list Input) (s : Proc) :
  unload_heads_path (state (loop script s)) = unload_heads_path s.
Proof.
  revert s. induction script as [|i rest IH]; intros s; [reflexivity |].
  rewrite loop_cons. cbn zeta. destruct (continues (result i)); cbn.
  - now rewrite IH, iteration_heads_path.
  - apply iteration_heads_path.
Qed.

(** ** [run]: the try block and the finally block *)

Lemma run_eq (dm : bool) (h : Host) (script : list Input) (s : Proc) :
  run dm h script s =
  let t := run_try dm h script s in
  match value t with
  | Waiting => (Waiting, state t, actions t)
  | o => (o, unpark (state t), actions t ++ unpark_actions (state t))
  end.
Proof.
  unfold run. mrun. unfold value, state, actions.
  destruct (run_try dm h script s) as [[o s1] o1]. cbn.
  destruct o; mrun; rewrite ?run_finally_eq, ?app_nil_r; reflexivity.
Qed.

Lemma run_try_heads_path (dm : bool) (h : Host) (script : list Input) (s : Proc) :
  unload_heads_path (state (run_try dm h script s)) = unload_heads_path s.
Proof.
  pose proof (loop_heads_path script s) as Hl.
  unfold run_try, open_read, daemonize, state in *. mrun.
  destruct (fs s !! freefall_device) as [f|]; [destruct (readable f) |];
    cbn; try reflexivity.
  destruct dm; [destruct (fork1 h); [destruct (fork2 h) | |] |]; cbn;
    try reflexivity;
    destruct (sched_ok h), (mlock_ok h); cbn;
    destruct (loop script s) as [[e s2] o2]; destruct e; cbn in *; exact Hl.
Qed.



Lemma unpark_can_write (s : Proc) (p : string) : can_write (unpark s) p = can_write s p.
Proof. unfold unpark. now rewrite !write_file_can_write. Qed.

Lemma unpark_text (s : Proc) (p : string) :
  p = unload_heads_path s ∨ p = led_path →
  can_write s p = true → file_text (unpark s) p = Some "0".
Proof.
  intros Hp Hw. unfold unpark.
  destruct (decide (p = led_path)) as [-> | Hne].
  - apply write_file_text_same. now rewrite write_file_can_write.
  - destruct Hp as [-> | ->]; [| congruence].
    rewrite write_file_text_other by assumption.
    now apply write_file_text_same.
Qed.

Lemma writes_unpark_actions (s : Proc) :
  writes (unpark_actions s) =
  [OpenWrite (unload_heads_path s) "0"; OpenWrite led_path "0"].
Proof.
  unfold unpark_actions. now rewrite writes_app, !writes_write_actions.
Qed.

(** Every way out of [run] passes the finally block once, after everything
    the try block did. *)
Lemma run_exit (dm : bool) (h : Host) (script : list Input) (s : Proc) :
  let t := run_try dm h script s in
  let r := run dm h script s in
  value t ≠ Waiting →
  value r = value t
  ∧ state r = unpark (state t)
  ∧ actions r = actions t ++ unpark_actions (state t)
  ∧ writes (unpark_actions (state t)) =
    [OpenWrite (unload_heads_path s) "0"; OpenWrite led_path "0"].
Proof.
  cbn zeta. intros Hw. rewrite run_eq. cbn zeta.
  rewrite writes_unpark_actions, run_try_heads_path.
  destruct (value (run_try dm h script s)); try congruence; repeat split.
Qed.




(** ** Duration selection *)

Lemma on_ac_fs (s s' : Proc) : fs s = fs s' → value (on_ac s) = value (on_ac s').
Proof.
  intros H. unfold on_ac, open_read, value. mrun. rewrite H.
  destruct (fs s' !! ac_path) as [f|]; [destruct (readable f) |]; reflexivity.
Qed.

Lemma lid_open_fs (s s' : Proc) : fs s = fs s' → value (lid_open s) = value (lid_open s').
Proof.
  intros H. unfold lid_open, open_read, value. mrun. rewrite H.
  destruct (fs s' !! lid_path) as [f|]; [destruct (readable f) |]; reflexivity.
Qed.

Lemma sensors_value (s : Proc) :
  value (por on_ac lid_open s) = value (on_ac s) || value (lid_open s).
Proof.
  unfold por, on_ac, lid_open, open_read, value. mrun.
  destruct (fs s !! ac_path) as [f|]; [destruct (readable f) |]; cbn;
    try reflexivity.
  destruct (String.eqb _ _); cbn; [reflexivity |].
  destruct (fs s !! lid_path) as [g|]; [destruct (readable g) |]; reflexivity.
Qed.

Lemma duration_fs (s s' : Proc) : fs s = fs s' → duration s = duration s'.
Proof.
  intros H. unfold duration.
  now rewrite !sensors_value, (on_ac_fs s s' H), (lid_open_fs s s' H).
Qed.

Lemma iteration_data_alarm (i : Input) (b : Byte.byte) (s : Proc) :
  result i = Data b →
  alarm (state (iteration i s)) = Some (duration (state (iteration i s)) * 1000)%N
  ∧ protection_active (state (iteration i s)) = true
  ∧ ∃ before, actions (iteration i s)
              = before ++ [Alarm (duration (state (iteration i s)))].
Proof.
  intros Hr. rewrite (iteration_data i b s Hr). cbn zeta.
  cbn [state actions fst snd].
  match goal with
  | |- context [set_alarm ?a ?x] =>
      rewrite (duration_fs (set_alarm a x) x) by reflexivity
  end.
  repeat split. eexists. rewrite !app_assoc. reflexivity.
Qed.

(** C2. After a freefall event the alarm is armed for 2 seconds when
    [on_ac()] or [lid_open()] is true and for 20 seconds when both are
    false: (T,T) gives 2, (T,F) gives 2, (F,T) gives 2, (F,F) gives 20. The
    [signal.alarm] call with that number is the last action of the
    iteration. *)
Theorem duration_policy (i : Input) (b : Byte.byte) (s : Proc) (ac lid : bool) :
  result i = Data b →
  let r := iteration i s in
  value (on_ac (state r)) = ac →
  value (lid_open (state r)) = lid →
  value r = Continue
  ∧ alarm (state r) =
    Some (match ac, lid with
          | true, true => 2
          | true, false => 2
          | false, true => 2
          | false, false => 20
          end * 1000)%N
  ∧ ∃ before, actions r = before ++ [Alarm (if ac || lid then 2 else 20)%N].
Proof.
  intros Hr r Hac Hlid.
  destruct (iteration_data_alarm i b s Hr) as (Ha & _ & before & Hb).
  fold r in Ha, Hb.
  assert (Hd : duration (state r) = if ac || lid then 2%N else 20%N).
  { unfold duration. now rewrite sensors_value, Hac, Hlid. }
  split; [| split].
  - subst r. rewrite iteration_flow, Hr. reflexivity.
  - rewrite Ha, Hd. now destruct ac, lid.
  - exists before. now rewrite Hb, Hd.
Qed.

Lemma duration_policy_witness :
  alarm (state (iteration (event 0 Byte.x01) (ready_with "1" "state:      open")))
  = Some 2000%N
  ∧ alarm (state (iteration (event 0 Byte.x01) (ready_with "1" "state:      closed")))
    = Some 2000%N
  ∧ alarm (state (iteration (event 0 Byte.x01) (ready_with "0" "state:      open")))
    = Some 2000%N
  ∧ alarm (state (iteration (event 0 Byte.x01) (ready_with "0" "state:      closed")))
    = Some 20000%N.
Proof.
  split; [| split; [| split]].
  - apply (duration_policy (event 0 Byte.x01) Byte.x01
             (ready_with "1" "state:      open") true true);
      vm_compute; reflexivity.
  - apply (duration_policy (event 0 Byte.x01) Byte.x01
             (ready_with "1" "state:      closed") true false);
      vm_compute; reflexivity.
  - apply (duration_policy (event 0 Byte.x01) Byte.x01
             (ready_with "0" "state:      open") false true);
      vm_compute; reflexivity.
  - apply (duration_policy (event 0 Byte.x01) Byte.x01
             (ready_with "0" "state:      closed") false false);
      vm_compute; reflexivity.
Defined.

(** ** Writes and alarm calls of the pieces *)

Lemma alarm_calls_app (l1 l2 : list Action) :
  alarm_calls (l1 ++ l2) = alarm_calls l1 ++ alarm_calls l2.
Proof. apply List.filter_app. Qed.

Lemma alarm_calls_write_actions (s : Proc) (path text : string) :
  alarm_calls (write_actions s path text) = [].
Proof. unfold write_actions. now destruct (write_error s path). Qed.

Lemma sensors_actions (s : Proc) :
  actions (por on_ac lid_open s) =
  OpenRead ac_path :: if value (on_ac s) then [] else [OpenRead lid_path].
Proof.
  unfold por, on_ac, lid_open, open_read, value, actions. mrun.
  destruct (fs s !! ac_path) as [f|]; [destruct (readable f) |]; cbn;
    try reflexivity.
  destruct (String.eqb _ _); cbn; [reflexivity |].
  destruct (fs s !! lid_path) as [g|]; [destruct (readable g) |]; reflexivity.
Qed.

Lemma writes_sensors (s : Proc) : writes (actions (por on_ac lid_open s)) = [].
Proof. rewrite sensors_actions. now destruct (value (on_ac s)). Qed.


Lemma writes_park_actions (s : Proc) :
  writes (park_actions s) =
  [OpenWrite (unload_heads_path s) "21000"; OpenWrite led_path "1"].
Proof. unfold park_actions. now rewrite writes_app, !writes_write_actions. Qed.


Lemma alarm_calls_unpark_actions (s : Proc) : alarm_calls (unpark_actions s) = [].
Proof. unfold unpark_actions. now rewrite alarm_calls_app, !alarm_calls_write_actions. Qed.

Lemma elapse_not_due (ms : N) (s : Proc) :
  (∀ d, alarm s = Some d → (ms < d)%N) →
  actions (elapse ms s) = []
  ∧ protection_active (state (elapse ms s)) = protection_active s
  ∧ fs (state (elapse ms s)) = fs s
  ∧ alarm (state (elapse ms s)) = (λ d, (d - ms)%N) <$> alarm s.
Proof.
  intros H. rewrite elapse_eq. destruct (alarm s) as [d|] eqn:Ha; [| now cbn].
  specialize (H d eq_refl). apply N.leb_gt in H. now rewrite H.
Qed.

Lemma elapse_alarm_calls (ms : N) (s : Proc) : alarm_calls (actions (elapse ms s)) = [].
Proof.
  rewrite elapse_eq. destruct (alarm s) as [d|]; [| reflexivity].
  destruct (d <=? ms)%N; [| reflexivity]. apply alarm_calls_unpark_actions.
Qed.

Lemma iteration_data_writes (i : Input) (b : Byte.byte) (s : Proc) :
  result i = Data b →
  writes (actions (iteration i s)) =
  writes (actions (elapse (delay i) (changed i s)))
  ++ [OpenWrite (unload_heads_path s) "21000"; OpenWrite led_path "1"].
Proof.
  intros Hr. rewrite (iteration_data i b s Hr). cbn zeta. cbn [actions snd].
  rewrite !writes_app, writes_park_actions, writes_sensors. cbn.
  now rewrite (elapse_heads_path (delay i) (changed i s)).
Qed.


(** ** Re-arming *)








(** ** Empty reads *)

Lemma idle_iteration (i : Input) (s : Proc) :
  alarm s = None → idle (result i) = true →
  value (iteration i s) = Continue
  ∧ alarm (state (iteration i s)) = None
  ∧ protection_active (state (iteration i s)) = protection_active s
  ∧ writes (actions (iteration i s)) = [].
Proof.
  intros Ha Hi.
  assert (He : elapse (delay i) (changed i s) = (tt, changed i s, [])).
  { rewrite elapse_eq. cbn. now rewrite Ha. }
  destruct (result i) as [b| | |e] eqn:Hr; try discriminate.
  - rewrite (iteration_empty i s Hr), He. now cbn.
  - cbn in Hi. apply Z.eqb_eq in Hi.
    rewrite (iteration_eintr i e s Hr Hi), He. now cbn.
Qed.

Lemma idle_loop (rest : list Input) (s : Proc) :
  alarm s = None →
  Forall (λ k, idle (result k) = true) rest →
  value (loop rest s) = Blocked
  ∧ alarm (state (loop rest s)) = None
  ∧ protection_active (state (loop rest s)) = protection_active s
  ∧ writes (actions (loop rest s)) = [].
Proof.
  intros Ha H. revert s Ha. induction H as [|k rest Hk _ IH]; intros s Ha.
  - now cbn.
  - destruct (idle_iteration k s Ha Hk) as (Hv & Hal & Hp & Hw).
    rewrite loop_cons. cbn zeta.
    rewrite iteration_flow in Hv.
    destruct (continues (result k)); [| discriminate].
    destruct (IH _ Hal) as (Hv' & Hal' & Hp' & Hw').
    cbn [value state actions fst snd].
    rewrite writes_app, Hw, Hw', Hp', Hp. now cbn.
Qed.

(** C9. A read that returns no byte makes the loop call [signal.alarm(0)]
    and go on: no alarm is pending afterwards. If no alarm fell due while
    the read blocked, that call is the only action: nothing is written and
    [protection_active] is unchanged. Hence, after a freefall event [j] and
    an empty read that comes before the event's alarm, the machine stays
    protecting with no alarm pending through any further empty or
    interrupted reads, and the park and LED-on writes of the event stay
    its last writes. *)
Theorem empty_read_cancels_deadline (i : Input) (s : Proc) :
  result i = Empty →
  let r := iteration i s in
  (value r = Continue ∧ alarm (state r) = None
   ∧ alarm_calls (actions r) = [Alarm 0])
  ∧ ((∀ d, alarm s = Some d → (delay i < d)%N) →
       actions r = [Alarm 0]
       ∧ protection_active (state r) = protection_active s
       ∧ fs (state r) = fs (changed i s))
  ∧ (∀ j b rest,
       result j = Data b →
       (delay i < duration (state (iteration j s)) * 1000)%N →
       Forall (λ k, idle (result k) = true) rest →
       let l := loop (j :: i :: rest) s in
       value l = Blocked
       ∧ protection_active (state l) = true
       ∧ alarm (state l) = None
       ∧ writes (actions l) =
         writes (actions (elapse (delay j) (changed j s)))
         ++ [OpenWrite (unload_heads_path s) "21000"; OpenWrite led_path "1"]).
Proof.
  intros Hr r. subst r. split; [| split].
  - rewrite (iteration_empty i s Hr). cbn [value state actions fst snd].
    rewrite alarm_calls_app, elapse_alarm_calls. now cbn.
  - intros Hd. rewrite (iteration_empty i s Hr). cbn [value state actions fst snd].
    destruct (elapse_not_due (delay i) (changed i s)) as (Ha & Hp & Hf & _).
    { exact Hd. }
    rewrite Ha. repeat split; assumption.
  - intros j b rest Hj Hlt Hrest l. subst l.
    destruct (iteration_data_alarm j b s Hj) as (Hal & Hact & _).
    set (s1 := state (iteration j s)) in *.
    assert (Hstep : value (iteration i s1) = Continue
                    ∧ alarm (state (iteration i s1)) = None
                    ∧ protection_active (state (iteration i s1)) = true
                    ∧ writes (actions (iteration i s1)) = []).
    { rewrite (iteration_empty i s1 Hr). cbn [value state actions fst snd].
      destruct (elapse_not_due (delay i) (changed i s1)) as (Ha & Hp & _ & _).
      { cbn. intros d Hd. congruence. }
      rewrite Ha. cbn. now rewrite Hp. }
    destruct Hstep as (_ & Hal1 & Hp1 & Hw1).
    destruct (idle_loop rest _ Hal1 Hrest) as (Hv2 & Hal2 & Hp2 & Hw2).
    rewrite loop_cons, Hj. cbn zeta. fold s1.
    rewrite loop_cons, Hr. cbn zeta.
    cbn [value state actions fst snd continues].
    rewrite !writes_app, Hw1, Hw2, app_nil_r.
    rewrite (iteration_data_writes j b s Hj).
    repeat split; congruence.
Qed.

Lemma empty_read_cancels_deadline_witness :
  let l := loop [event 100 Byte.x01; after 500 Empty; after 60000 Empty] ready in
  value l = Blocked ∧ protection_active (state l) = true ∧ alarm (state l) = None
  ∧ writes (actions l) =
    [OpenWrite "/sys/block/sda/device/unload_heads" "21000"; OpenWrite led_path "1"].
Proof.
  pose proof (empty_read_cancels_deadline (after 500 Empty) ready eq_refl)
    as (_ & _ & H).
  apply (H (event 100 Byte.x01) Byte.x01 [after 60000 Empty]).
  - reflexivity.
  - vm_compute. reflexivity.
  - repeat constructor.
Defined.

(** ** The event byte *)

Lemma writes_hush (l : list Action) : writes (map hush l) = writes l.
Proof.
  unfold writes. induction l as [|a l IH]; [reflexivity |].
  destruct a as [p|p t|out ln|n]; cbn; try (now rewrite IH).
  destruct ln; cbn; now rewrite IH.
Qed.

Lemma alarm_calls_hush (l : list Action) : alarm_calls (map hush l) = alarm_calls l.
Proof.
  unfold alarm_calls. induction l as [|a l IH]; [reflexivity |].
  destruct a as [p|p t|out ln|n]; cbn; try (now rewrite IH).
  destruct ln; cbn; now rewrite IH.
Qed.

Lemma same_but_byte_continues (i j : Input) :
  same_but_byte i j → continues (result i) = continues (result j).
Proof.
  intros (_ & _ & H). destruct (result i), (result j); try discriminate;
    try reflexivity; now inversion H.
Qed.

Lemma iteration_same_but_byte (i j : Input) (s : Proc) :
  same_but_byte i j →
  state (iteration i s) = state (iteration j s)
  ∧ map hush (actions (iteration i s)) = map hush (actions (iteration j s)).
Proof.
  intros (Hc & Hd & Hr).
  assert (Hch : changed i s = changed j s) by (unfold changed; now rewrite Hc).
  destruct (result i) as [b| | |e] eqn:Hi, (result j) as [b'| | |e'] eqn:Hj;
    try discriminate.
  - rewrite (iteration_data i b s Hi), (iteration_data j b' s Hj).
    cbn zeta. cbn [state actions fst snd]. rewrite Hch, Hd. split; [reflexivity |].
    rewrite !map_app. reflexivity.
  - rewrite (iteration_empty i s Hi), (iteration_empty j s Hj).
    now rewrite Hch, Hd.
  - rewrite (iteration_interrupt i s Hi), (iteration_interrupt j s Hj).
    now rewrite Hch, Hd.
  - injection Hr as <-.
    destruct (Z.eq_dec (errno e) EINTR) as [He|He].
    + rewrite (iteration_eintr i e s Hi He), (iteration_eintr j e s Hj He).
      now rewrite Hch, Hd.
    + rewrite (iteration_error i e s Hi He), (iteration_error j e s Hj He).
      now rewrite Hch, Hd.
Qed.

Lemma loop_same_but_byte (sc1 sc2 : list Input) (s : Proc) :
  Forall2 same_but_byte sc1 sc2 →
  value (loop sc1 s) = value (loop sc2 s)
  ∧ state (loop sc1 s) = state (loop sc2 s)
  ∧ map hush (actions (loop sc1 s)) = map hush (actions (loop sc2 s)).
Proof.
  intros H. revert s. induction H as [|i j sc1 sc2 Hij _ IH]; intros s.
  - now cbn.
  - rewrite !loop_cons. cbn zeta.
    rewrite <- (same_but_byte_continues i j Hij).
    destruct (iteration_same_but_byte i j s Hij) as (Hs & Ha).
    rewrite <- Hs.
    destruct (continues (result i)); cbn [value state actions fst snd].
    + destruct (IH (state (iteration i s))) as (Hv' & Hs' & Ha').
      now rewrite !map_app, Ha, Ha', Hv', Hs'.
    + now rewrite Ha.
Qed.

Lemma run_try_same_but_byte (dm : bool) (h : Host) (sc1 sc2 : list Input) (s : Proc) :
  Forall2 same_but_byte sc1 sc2 →
  value (run_try dm h sc1 s) = value (run_try dm h sc2 s)
  ∧ state (run_try dm h sc1 s) = state (run_try dm h sc2 s)
  ∧ map hush (actions (run_try dm h sc1 s)) = map hush (actions (run_try dm h sc2 s)).
Proof.
  intros H. destruct (loop_same_but_byte sc1 sc2 s H) as (Hv & Hs & Ha).
  unfold run_try, open_read, daemonize, value, state, actions in *. mrun.
  destruct (fs s !! freefall_device) as [f|]; [destruct (readable f) |];
    cbn; try (repeat split; reflexivity).
  destruct dm; [destruct (fork1 h); [destruct (fork2 h) | |] |]; cbn;
    try (repeat split; reflexivity);
    destruct (sched_ok h), (mlock_ok h); cbn;
    destruct (loop sc1 s) as [[e1 s1] o1], (loop sc2 s) as [[e2 s2] o2];
    cbn in *; subst; destruct e2; cbn; rewrite ?app_nil_r; repeat split;
    congruence.
Qed.

Lemma run_same_but_byte (dm : bool) (h : Host) (sc1 sc2 : list Input) (s : Proc) :
  Forall2 same_but_byte sc1 sc2 →
  value (run dm h sc1 s) = value (run dm h sc2 s)
  ∧ state (run dm h sc1 s) = state (run dm h sc2 s)
  ∧ map hush (actions (run dm h sc1 s)) = map hush (actions (run dm h sc2 s)).
Proof.
  intros H. destruct (run_try_same_but_byte dm h sc1 sc2 s H) as (Hv & Hs & Ha).
  rewrite !run_eq. cbn zeta. rewrite <- Hv, <- Hs.
  destruct (value (run_try dm h sc1 s)); cbn [value state actions fst snd];
    rewrite ?map_app, ?Ha; repeat split; reflexivity.
Qed.

(** C8. Two runs whose scripts differ only in the bytes that the events
    carry return the same result, end in the same state, with the same
    files and the same pending alarm, and perform the same actions up to the
    count shown in the "Freefall detected" line; in particular the same
    writes, in the same order, and the same [signal.alarm] calls. *)
Theorem event_byte_is_only_logged (dev : string) (nd : bool) (h : Host)
    (sc1 sc2 : list Input) (s : Proc) :
  Forall2 same_but_byte sc1 sc2 →
  let r1 := main dev nd h sc1 s in
  let r2 := main dev nd h sc2 s in
  value r1 = value r2
  ∧ state r1 = state r2
  ∧ map hush (actions r1) = map hush (actions r2)
  ∧ writes (actions r1) = writes (actions r2)
  ∧ alarm_calls (actions r1) = alarm_calls (actions r2).
Proof.
  intros H r1 r2.
  assert (Hm : value r1 = value r2 ∧ state r1 = state r2
               ∧ map hush (actions r1) = map hush (actions r2)).
  { subst r1 r2. unfold main. mrun. unfold value, state, actions.
    destruct (euid h =? 0)%Z; cbn;
      destruct (__init__ dev s) as [[[e|[]] s1] o1]; cbn;
      try (repeat split; reflexivity);
      destruct (run_same_but_byte (negb nd) h sc1 sc2 s1 H) as (Hv & Hs & Ha);
      unfold value, state, actions in *;
      destruct (run (negb nd) h sc1 s1) as [[v1 t1] a1],
               (run (negb nd) h sc2 s1) as [[v2 t2] a2];
      cbn in *; subst; rewrite ?map_app, ?Ha; repeat split; reflexivity. }
  destruct Hm as (Hv & Hs & Ha). repeat split; try assumption.
  - now rewrite <- (writes_hush (actions r1)), Ha, writes_hush.
  - now rewrite <- (alarm_calls_hush (actions r1)), Ha, alarm_calls_hush.
Qed.

Lemma event_byte_is_only_logged_witness :
  writes (actions (main "/dev/sda" true root_host
                     [event 100 Byte.x01; after 30000 KeyboardInterrupt]
                     (boot laptop)))
  = writes (actions (main "/dev/sda" true root_host
                       [event 100 Byte.xff; after 30000 KeyboardInterrupt]
                       (boot laptop))).
Proof.
  apply (event_byte_is_only_logged "/dev/sda" true root_host
           [event 100 Byte.x01; after 30000 KeyboardInterrupt]
           [event 100 Byte.xff; after 30000 KeyboardInterrupt] (boot laptop)).
  repeat constructor.
Defined.

(** ** The head-park command *)

(** C6. [protect(seconds)] opens the head-park path once, to write the
    decimal text of [seconds * 1000], which reads back as that number; where
    the path accepts writes the file then holds that text, otherwise the
    state is unchanged and [False] is returned. [protect(0)] writes "0", and
    whenever [run] ends, that write and the LED-off write are its last two
    writes, in every state [s], also one in which no write succeeds:
    nothing in [run] looks at the result of a write. *)
Theorem protect_writes_milliseconds (seconds : Z) (s : Proc) :
  let r := protect seconds s in
  let path := unload_heads_path s in
  writes (actions r) = [OpenWrite path (PyStr.str (seconds * 1000))]
  ∧ PyStr.int (PyStr.str (seconds * 1000)) = Some (seconds * 1000)%Z
  ∧ value r = can_write s path
  ∧ (if can_write s path
     then file_text (state r) path = Some (PyStr.str (seconds * 1000))
     else state r = s)
  ∧ writes (actions (protect 0 s)) = [OpenWrite path "0"]
  ∧ ∀ dm h script,
      value (run_try dm h script s) ≠ Waiting →
      ∃ before, writes (actions (run dm h script s))
                = before ++ [OpenWrite path "0"; OpenWrite led_path "0"].
Proof.
  cbn zeta. rewrite !protect_eq. cbn [value state actions fst snd].
  split; [| split; [| split; [| split; [| split]]]].
  - apply writes_write_actions.
  - apply str_int.
  - reflexivity.
  - destruct (can_write s (unload_heads_path s)) eqn:Hw.
    + now apply write_file_text_same.
    + now apply write_file_unwritable.
  - apply writes_write_actions.
  - intros dm h script Hw.
    destruct (run_exit dm h script s Hw) as (_ & _ & Ha & Hc).
    exists (writes (actions (run_try dm h script s))).
    now rewrite Ha, writes_app, Hc.
Qed.

Lemma protect_writes_milliseconds_witness :
  value (protect 21 ready_read_only) = false
  ∧ ∃ before,
      writes (actions (run false root_host
                         [event 100 Byte.x01; after 5 KeyboardInterrupt]
                         ready_read_only))
      = before ++ [OpenWrite "/sys/block/sda/device/unload_heads" "0";
                   OpenWrite led_path "0"].
Proof.
  pose proof (protect_writes_milliseconds 21 ready_read_only)
    as (_ & _ & Hv & _ & _ & Hrun).
  split.
  - rewrite Hv. reflexivity.
  - apply (Hrun false root_host [event 100 Byte.x01; after 5 KeyboardInterrupt]).
    vm_compute. discriminate.
Defined.

(** ** Exit status after a read error *)

(** C3. On the script "one event, then a read failing with EIO" the loop
    ends, the error line is printed, the cleanup writes follow once, and
    [main] returns 0, the status of a clean shutdown, while a failure to
    open the event source returns 1. *)
Theorem read_error_exit_status :
  let r := main "/dev/sda" true root_host fall_then_io_error (boot laptop) in
  let stop := main "/dev/sda" true root_host
                [event 100 Byte.x01; after 5 KeyboardInterrupt] (boot laptop) in
  let no_source := main "/dev/sda" true root_host fall_then_io_error
                     (boot (delete freefall_device laptop)) in
  exit_code (value r) = Some 0%Z
  ∧ In (Print Stderr (ErrorReading {| errno := EIO |})) (actions r)
  ∧ writes (actions r) =
    [OpenWrite "/sys/block/sda/device/unload_heads" "21000"; OpenWrite led_path "1";
     OpenWrite "/sys/block/sda/device/unload_heads" "0"; OpenWrite led_path "0"]
  ∧ exit_code (value stop) = Some 0%Z
  ∧ exit_code (value no_source) = Some 1%Z.
Proof.
  cbn zeta. split; [| split; [| split; [| split]]].
  - vm_compute. reflexivity.
  - vm_compute. tauto.
  - vm_compute. reflexivity.
  - vm_compute. reflexivity.
  - vm_compute. reflexivity.
Qed.

(** * Further properties of the daemon *)

(** ** Files after a write *)

Lemma proc_eq (s t : Proc) :
  fs s = fs t → alarm s = alarm t → device s = device t →
  unload_heads_path s = unload_heads_path t →
  protection_active s = protection_active t → s = t.
Proof. destruct s, t. cbn. now intros -> -> -> -> ->. Qed.

Lemma write_file_lookup (path text : string) (s : Proc) (p : string) :
  fs (write_file path text s) !! p =
  if decide (p = path)
  then match fs s !! path with
       | Some f =>
           if writable f
           then Some {| contents := text; readable := readable f; writable := true |}
           else Some f
       | None => None
       end
  else fs s !! p.
Proof.
  unfold write_file.
  destruct (decide (p = path)) as [-> | Hne].
  - destruct (fs s !! path) as [f|] eqn:Hf; [| exact Hf].
    destruct (writable f) eqn:Hw; [| exact Hf].
    cbn. now rewrite lookup_insert_eq.
  - destruct (fs s !! path) as [f|] eqn:Hf; [| reflexivity].
    destruct (writable f); [| reflexivity].
    cbn. now rewrite lookup_insert_ne.
Qed.

Lemma write_file_twice (path text : string) (s : Proc) :
  write_file path text (write_file path text s) = write_file path text s.
Proof.
  apply proc_eq;
    rewrite ?write_file_alarm, ?write_file_device, ?write_file_heads_path,
      ?write_file_active; try reflexivity.
  apply map_eq. intros p. rewrite !write_file_lookup.
  destruct (decide (p = path)) as [-> | Hne]; [| reflexivity].
  rewrite decide_True by reflexivity.
  destruct (fs s !! path) as [f|]; [| reflexivity].
  destruct (writable f) eqn:Hw; cbn; [reflexivity | now rewrite Hw].
Qed.

Lemma unpark_twice (s : Proc) : unpark (unpark s) = unpark s.
Proof.
  unfold unpark. rewrite !write_file_heads_path.
  apply proc_eq;
    rewrite ?write_file_alarm, ?write_file_device, ?write_file_heads_path,
      ?write_file_active; try reflexivity.
  apply map_eq. intros p. rewrite !write_file_lookup.
  repeat (case_decide || case_match); simplify_eq/=; congruence.
Qed.

(** X3. Unparking is idempotent: a second run of the alarm handler, or the
    cleanup of [run] after the handler, leaves every file and every field of
    the process as the first one left them. *)
Theorem unpark_is_idempotent (s : Proc) :
  state (_signal_handler (state (_signal_handler s))) = state (_signal_handler s)
  ∧ fs (state (run_finally (state (_signal_handler s)))) = fs (state (_signal_handler s))
  ∧ state (run_finally (state (run_finally s))) = state (run_finally s).
Proof.
  rewrite !signal_handler_eq, !run_finally_eq. cbn [state fst snd].
  assert (H : ∀ b t, unpark (set_protection_active b t)
                     = set_protection_active b (unpark t)).
  { intros b t. unfold unpark, write_file. cbn.
    destruct (fs t !! unload_heads_path t) as [f|]; [destruct (writable f) |];
      cbn; destruct (_ !! led_path) as [g|]; try destruct (writable g);
      reflexivity. }
  rewrite !H, !unpark_twice. repeat split; reflexivity.
Qed.
(** ** Alarm expiry *)

Lemma elapse_due (ms : N) (s : Proc) (d : N) :
  alarm s = Some d → (d <= ms)%N →
  elapse ms s =
  (tt, set_protection_active false (unpark (set_alarm None s)),
   unpark_actions (set_alarm None s)).
Proof.
  intros Ha Hd. rewrite elapse_eq, Ha. apply N.leb_le in Hd. now rewrite Hd.
Qed.

Lemma elapse_can_write (ms : N) (s : Proc) (p : string) :
  can_write (state (elapse ms s)) p = can_write s p.
Proof.
  rewrite elapse_eq. destruct (alarm s) as [d|]; [| reflexivity].
  destruct (d <=? ms)%N; [| reflexivity].
  cbn [state fst snd].
  change (can_write (set_protection_active false (unpark (set_alarm None s))) p)
    with (can_write (unpark (set_alarm None s)) p).
  now rewrite unpark_can_write.
Qed.

Lemma file_text_set_alarm (a : option N) (s : Proc) (p : string) :
  file_text (set_alarm a s) p = file_text s p.
Proof. reflexivity. Qed.

(** X1. When the pending alarm falls due while the process waits in a read
    that brings no event (an empty read or an interrupted one), the handler
    runs: "0" is written to the head-park path and then to the LED path,
    [protection_active] becomes false, no alarm is pending, the loop goes
    on, and each of the two files that accepts writes holds "0". *)
Theorem alarm_expiry_unparks (i : Input) (s : Proc) (d : N) :
  alarm s = Some d →
  (d <= delay i)%N →
  idle (result i) = true →
  let r := iteration i s in
  value r = Continue
  ∧ alarm (state r) = None
  ∧ protection_active (state r) = false
  ∧ writes (actions r) =
    [OpenWrite (unload_heads_path s) "0"; OpenWrite led_path "0"]
  ∧ (can_write (changed i s) (unload_heads_path s) = true →
     file_text (state r) (unload_heads_path s) = Some "0")
  ∧ (can_write (changed i s) led_path = true →
     file_text (state r) led_path = Some "0").
Proof.
  intros Ha Hd Hi r.
  assert (He := elapse_due (delay i) (changed i s) d Ha Hd).
  assert (Ht : ∀ p, p = unload_heads_path s ∨ p = led_path →
                    can_write (changed i s) p = true →
                    file_text (unpark (set_alarm None (changed i s))) p = Some "0").
  { intros p Hp Hw. apply unpark_text; assumption. }
  assert (Hal : alarm (unpark (set_alarm None (changed i s))) = None).
  { unfold unpark. now rewrite !write_file_alarm. }
  subst r. destruct (result i) as [b| | |e] eqn:Hr; try discriminate.
  - rewrite (iteration_empty i s Hr), He. cbn [value state actions fst snd].
    rewrite writes_app, writes_unpark_actions.
    split; [reflexivity |]. split; [reflexivity |]. split; [reflexivity |].
    split; [reflexivity |].
    split; intros Hw; (apply Ht; [(left; reflexivity) || (right; reflexivity) | exact Hw]).
  - cbn in Hi. apply Z.eqb_eq in Hi.
    rewrite (iteration_eintr i e s Hr Hi), He. cbn [value state actions fst snd].
    rewrite writes_unpark_actions.
    split; [reflexivity |]. split; [exact Hal |]. split; [reflexivity |].
    split; [reflexivity |].
    split; intros Hw; (apply Ht; [(left; reflexivity) || (right; reflexivity) | exact Hw]).
Qed.

Lemma alarm_expiry_unparks_witness :
  let r := iteration (after 20000 (ReadError {| errno := EINTR |})) after_first_event in
  protection_active (state r) = false
  ∧ file_text (state r) "/sys/block/sda/device/unload_heads" = Some "0".
Proof.
  pose proof (alarm_expiry_unparks (after 20000 (ReadError {| errno := EINTR |}))
                after_first_event 20000%N) as H.
  destruct H as (_ & _ & Hp & _ & Hh & _).
  - reflexivity.
  - vm_compute. discriminate.
  - reflexivity.
  - split; [exact Hp |]. apply Hh. vm_compute. reflexivity.
Defined.

(** X2. A freefall event that is read only when the alarm is already due
    (at the deadline or after it) finds the handler run first: the writes of
    that read are the unpark pair followed by the park pair, and the
    machine ends protecting with a fresh alarm. *)
Theorem late_event_parks_again (i : Input) (b : Byte.byte) (s : Proc) (d : N) :
  alarm s = Some d →
  (d <= delay i)%N →
  result i = Data b →
  let r := iteration i s in
  writes (actions r) =
    [OpenWrite (unload_heads_path s) "0"; OpenWrite led_path "0";
     OpenWrite (unload_heads_path s) "21000"; OpenWrite led_path "1"]
  ∧ protection_active (state r) = true
  ∧ alarm (state r) = Some (duration (state r) * 1000)%N.
Proof.
  intros Ha Hd Hr r. subst r.
  destruct (iteration_data_alarm i b s Hr) as (Hal & Hact & _).
  rewrite (iteration_data_writes i b s Hr).
  rewrite (elapse_due (delay i) (changed i s) d Ha Hd). cbn [actions snd].
  rewrite writes_unpark_actions. repeat split; assumption.
Qed.

Lemma late_event_parks_again_witness :
  writes (actions (iteration (event 20000 Byte.x02) after_first_event)) =
  [OpenWrite "/sys/block/sda/device/unload_heads" "0"; OpenWrite led_path "0";
   OpenWrite "/sys/block/sda/device/unload_heads" "21000"; OpenWrite led_path "1"].
Proof.
  apply (late_event_parks_again (event 20000 Byte.x02) Byte.x02 after_first_event
           20000%N).
  - reflexivity.
  - vm_compute. discriminate.
  - reflexivity.
Defined.

(** X4. A read interrupted (EINTR) before the alarm is due does nothing at
    all: unlike an empty read it does not call [signal.alarm(0)], so the
    alarm stays pending with the time reduced by the wait, and it fires in a
    later read once that remaining time has passed. *)
Theorem interrupted_read_keeps_alarm (i j : Input) (e : OSError) (s : Proc) (d : N) :
  alarm s = Some d →
  (delay i < d)%N →
  result i = ReadError e →
  errno e = EINTR →
  iteration i s = (Continue, set_alarm (Some (d - delay i)%N) (changed i s), [])
  ∧ (idle (result j) = true → (d - delay i <= delay j)%N →
     let l := loop [i; j] s in
     protection_active (state l) = false
     ∧ alarm (state l) = None
     ∧ writes (actions l) =
       [OpenWrite (unload_heads_path s) "0"; OpenWrite led_path "0"]).
Proof.
  intros Ha Hlt Hr He.
  assert (Hi : iteration i s =
               (Continue, set_alarm (Some (d - delay i)%N) (changed i s), [])).
  { rewrite (iteration_eintr i e s Hr He), elapse_eq. cbn [alarm changed set_fs].
    rewrite Ha. apply N.leb_gt in Hlt. now rewrite Hlt. }
  split; [exact Hi |].
  intros Hj Hd l. subst l.
  assert (Hcj : continues (result j) = true).
  { destruct (result j); try discriminate; [reflexivity | exact Hj]. }
  rewrite loop_cons, Hr. cbn [continues]. apply Z.eqb_eq in He as He'.
  rewrite He'. cbn zeta. rewrite loop_cons, Hcj. cbn zeta. rewrite Hi.
  cbn [value state actions fst snd loop]. unfold mret, M_ret.
  cbn [value state actions fst snd].
  set (s1 := set_alarm (Some (d - delay i)%N) (changed i s)).
  destruct (alarm_expiry_unparks j s1 (d - delay i)%N eq_refl Hd Hj)
    as (_ & Hal & Hp & Hw & _).
  rewrite app_nil_r. cbn [app]. repeat split; assumption.
Qed.

Lemma interrupted_read_keeps_alarm_witness :
  alarm (state (iteration (after 5000 (ReadError {| errno := EINTR |}))
                  after_first_event)) = Some 15000%N
  ∧ actions (iteration (after 5000 (ReadError {| errno := EINTR |}))
               after_first_event) = [].
Proof.
  pose proof (interrupted_read_keeps_alarm
                (after 5000 (ReadError {| errno := EINTR |}))
                (after 15000 Empty) {| errno := EINTR |} after_first_event
                20000%N eq_refl eq_refl eq_refl eq_refl) as [H _].
  rewrite H. split; reflexivity.
Defined.
(** ** Control surfaces after an event *)

Lemma derived_path_not_led (name : string) : derived_path name ≠ led_path.
Proof. unfold derived_path, led_path. cbn. discriminate. Qed.

Lemma park_can_write (s : Proc) (p : string) : can_write (park s) p = can_write s p.
Proof. unfold park. now rewrite !write_file_can_write. Qed.

Lemma park_text (s : Proc) :
  unload_heads_path s ≠ led_path →
  (can_write s (unload_heads_path s) = true →
   file_text (park s) (unload_heads_path s) = Some "21000")
  ∧ (can_write s led_path = true → file_text (park s) led_path = Some "1").
Proof.
  intros Hne. unfold park. split; intros Hw.
  - rewrite write_file_text_other by assumption.
    now apply write_file_text_same.
  - apply write_file_text_same. now rewrite write_file_can_write.
Qed.

(** X5. After a freefall event the machine is protecting and, provided the
    head-park path is not the LED path, each of the two files that accepts
    writes shows it: "21000" in the head-park file, "1" in the LED file. *)
Theorem event_parks_and_lights (i : Input) (b : Byte.byte) (s : Proc) :
  result i = Data b →
  unload_heads_path s ≠ led_path →
  let r := iteration i s in
  protection_active (state r) = true
  ∧ (can_write (changed i s) (unload_heads_path s) = true →
     file_text (state r) (unload_heads_path s) = Some "21000")
  ∧ (can_write (changed i s) led_path = true →
     file_text (state r) led_path = Some "1").
Proof.
  intros Hr Hne r. subst r. rewrite (iteration_data i b s Hr). cbn zeta.
  cbn [state fst snd].
  set (s1 := state (elapse (delay i) (changed i s))).
  assert (Hp : unload_heads_path s1 = unload_heads_path s)
    by apply (elapse_heads_path (delay i) (changed i s)).
  assert (Hc : ∀ p, can_write (set_alarm None s1) p = can_write (changed i s) p)
    by (intros p; apply (elapse_can_write (delay i) (changed i s))).
  destruct (park_text (set_alarm None s1)) as [Hh Hl].
  { cbn. now rewrite Hp. }
  cbn [unload_heads_path set_alarm] in Hh. rewrite Hp in Hh.
  split; [reflexivity |]. split; intros Hw.
  - apply Hh. now rewrite Hc.
  - apply Hl. now rewrite Hc.
Qed.

Lemma event_parks_and_lights_witness :
  let r := iteration (event 100 Byte.x07) ready in
  protection_active (state r) = true
  ∧ file_text (state r) "/sys/block/sda/device/unload_heads" = Some "21000"
  ∧ file_text (state r) led_path = Some "1".
Proof.
  pose proof (event_parks_and_lights (event 100 Byte.x07) Byte.x07 ready eq_refl)
    as H.
  destruct H as (Hp & Hh & Hl).
  - apply (derived_path_not_led "sda").
  - split; [exact Hp |]. split.
    + apply Hh. vm_compute. reflexivity.
    + apply Hl. vm_compute. reflexivity.
Defined.

(** ** Failing writes *)

Lemma write_error_can_write (s : Proc) (path : string) :
  can_write s path = false → ∃ e, write_error s path = Some e.
Proof.
  unfold can_write, write_error.
  destruct (fs s !! path) as [f|]; [| eauto].
  intros ->. eauto.
Qed.

Lemma write_actions_error (s : Proc) (path text : string) :
  can_write s path = false →
  ∃ e, write_actions s path text = [OpenWrite path text; Print Stderr (ErrorWriting path e)].
Proof.
  intros H. destruct (write_error_can_write s path H) as [e He].
  exists e. unfold write_actions. now rewrite He.
Qed.

(** X6. A control surface that refuses a write never stops the daemon: after
    a freefall event the loop goes on and the alarm is armed (2 or 20
    seconds) whatever the two files accept, and each refused write is
    reported by an "Error writing to ..." line on stderr. *)
Theorem write_failure_is_not_fatal (i : Input) (b : Byte.byte) (s : Proc) :
  result i = Data b →
  let r := iteration i s in
  value r = Continue
  ∧ (alarm (state r) = Some 2000%N ∨ alarm (state r) = Some 20000%N)
  ∧ (can_write (changed i s) (unload_heads_path s) = false →
     ∃ e, In (Print Stderr (ErrorWriting (unload_heads_path s) e)) (actions r))
  ∧ (can_write (changed i s) led_path = false →
     ∃ e, In (Print Stderr (ErrorWriting led_path e)) (actions r)).
Proof.
  intros Hr r.
  destruct (iteration_data_alarm i b s Hr) as (Hal & _ & _). fold r in Hal.
  split; [subst r; now rewrite iteration_flow, Hr |].
  split.
  { rewrite Hal. unfold duration. destruct (value _); [now left | now right]. }
  subst r. rewrite (iteration_data i b s Hr). cbn zeta. cbn [actions snd].
  set (s1 := state (elapse (delay i) (changed i s))).
  assert (Hp : unload_heads_path s1 = unload_heads_path s)
    by apply (elapse_heads_path (delay i) (changed i s)).
  assert (Hc : ∀ p, can_write (set_alarm None s1) p = can_write (changed i s) p)
    by (intros p; apply (elapse_can_write (delay i) (changed i s))).
  unfold park_actions. cbn [unload_heads_path set_alarm]. rewrite Hp.
  split; intros Hw.
  - destruct (write_actions_error (set_alarm None s1) (unload_heads_path s) "21000")
      as [e He]; [now rewrite Hc |].
    exists e. rewrite He. rewrite !in_app_iff. cbn [In]. intuition.
  - destruct (write_actions_error
                (write_file (unload_heads_path s) "21000" (set_alarm None s1))
                led_path "1") as [e He].
    { now rewrite write_file_can_write, Hc. }
    exists e. rewrite He. rewrite !in_app_iff. cbn [In]. intuition.
Qed.

Lemma write_failure_is_not_fatal_witness :
  let r := iteration (event 100 Byte.x01) ready_read_only in
  value r = Continue
  ∧ ∃ e, In (Print Stderr (ErrorWriting "/sys/block/sda/device/unload_heads" e))
           (actions r).
Proof.
  pose proof (write_failure_is_not_fatal (event 100 Byte.x01) Byte.x01
                ready_read_only eq_refl) as (Hv & _ & Hh & _).
  split; [exact Hv |]. apply Hh. vm_compute. reflexivity.
Defined.

(** X7. The probe of the constructor only asks for read access: a head-park
    file that can be read but not written passes [__init__], and from then
    on every [protect] call fails, returns [False] and leaves the file as it
    was. *)
Theorem probe_accepts_read_only_surface (name : string) (f : File) (s : Proc)
    (seconds : Z) :
  name ≠ "" →
  fs s !! derived_path name = Some f →
  readable f = true →
  writable f = false →
  let s1 := state (__init__ ("/dev/" +:+ name) s) in
  value (__init__ ("/dev/" +:+ name) s) = inr tt
  ∧ value (protect seconds s1) = false
  ∧ fs (state (protect seconds s1)) = fs s
  ∧ ∃ e, actions (protect seconds s1) =
         [OpenWrite (derived_path name) (PyStr.str (seconds * 1000));
          Print Stderr (ErrorWriting (derived_path name) e)].
Proof.
  intros Hne Hf Hr Hw. rewrite init_accepted by assumption. cbn zeta.
  rewrite Hf, Hr. cbn [value state fst snd].
  rewrite protect_eq. cbn [value state actions fst snd unload_heads_path
                           set_unload_heads_path].
  set (s1 := set_unload_heads_path _ _).
  assert (Hc : can_write s1 (derived_path name) = false).
  { unfold can_write. subst s1. cbn. now rewrite Hf. }
  split; [reflexivity |]. split; [exact Hc |]. split.
  - now rewrite write_file_unwritable.
  - apply (write_actions_error s1 _ _ Hc).
Qed.

Lemma probe_accepts_read_only_surface_witness :
  value (__init__ "/dev/sda"
           (boot (<["/sys/block/sda/device/unload_heads" := read_only "0"]> laptop)))
  = inr tt.
Proof.
  apply (probe_accepts_read_only_surface "sda" (read_only "0")
           (boot (<["/sys/block/sda/device/unload_heads" := read_only "0"]> laptop))
           21).
  - discriminate.
  - reflexivity.
  - reflexivity.
  - reflexivity.
Defined.

(** X8. What [_write_int] writes can be read back: on a file that can be
    written and read, [_write_int(path, v)] returns [True], a following read
    of the file yields the decimal text of [v], which denotes [v], and every
    other file is as before. *)
Theorem write_int_read_back (path : string) (v : Z) (f : File) (s : Proc) :
  fs s !! path = Some f →
  writable f = true →
  readable f = true →
  let s1 := state (_write_int path v s) in
  value (_write_int path v s) = true
  ∧ value (open_read path s1) = Done (PyStr.str v)
  ∧ PyStr.int (PyStr.str v) = Some v
  ∧ ∀ p, p ≠ path → fs s1 !! p = fs s !! p.
Proof.
  intros Hf Hw Hr. cbn zeta. rewrite write_int_eq. cbn [value state fst snd].
  split; [unfold can_write; now rewrite Hf |].
  split; [| split; [apply str_int |]].
  - unfold open_read, value. cbn [fst]. rewrite write_file_lookup.
    rewrite decide_True by reflexivity. rewrite Hf, Hw. cbn. now rewrite Hr.
  - intros p Hp. rewrite write_file_lookup. now rewrite decide_False.
Qed.

Lemma write_int_read_back_witness :
  value (open_read "/tmp/tmpfile"
           (state (_write_int "/tmp/tmpfile" 12345
                     (boot (<["/tmp/tmpfile" := rw ""]> ∅)))))
  = Done "12345".
Proof.
  apply (write_int_read_back "/tmp/tmpfile" 12345 (rw "")
           (boot (<["/tmp/tmpfile" := rw ""]> ∅))).
  - reflexivity.
  - reflexivity.
  - reflexivity.
Defined.
(** ** When the daemon ends *)




(** ** The handle does not change *)

Lemma unpark_device (s : Proc) : device (unpark s) = device s.
Proof. unfold unpark. now rewrite !write_file_device. Qed.

Lemma park_device (s : Proc) : device (park s) = device s.
Proof. unfold park. now rewrite !write_file_device. Qed.

Lemma elapse_device (ms : N) (s : Proc) : device (state (elapse ms s)) = device s.
Proof.
  rewrite elapse_eq. destruct (alarm s) as [d|]; [| reflexivity].
  destruct (d <=? ms)%N; cbn; [| reflexivity]. now rewrite unpark_device.
Qed.

Lemma iteration_device (i : Input) (s : Proc) :
  device (state (iteration i s)) = device s.
Proof.
  pose proof (elapse_device (delay i) (changed i s)) as He. cbn in He.
  destruct (result i) as [b| | |e] eqn:Hr.
  - rewrite (iteration_data i b s Hr). cbn. now rewrite park_device.
  - now rewrite (iteration_empty i s Hr).
  - now rewrite (iteration_interrupt i s Hr).
  - destruct (Z.eq_dec (errno e) EINTR) as [Hi|Hi].
    + now rewrite (iteration_eintr i e s Hr Hi).
    + now rewrite (iteration_error i e s Hr Hi).
Qed.

Lemma loop_device (script : list Input) (s : Proc) :
  device (state (loop script s)) = device s.
Proof.
  revert s. induction script as [|i rest IH]; intros s; [reflexivity |].
  rewrite loop_cons. cbn zeta. destruct (continues (result i)); cbn.
  - now rewrite IH, iteration_device.
  - apply iteration_device.
Qed.

Lemma run_try_device (dm : bool) (h : Host) (script : list Input) (s : Proc) :
  device (state (run_try dm h script s)) = device s.
Proof.
  pose proof (loop_device script s) as Hl.
  unfold run_try, open_read, daemonize, state in *. mrun.
  destruct (fs s !! freefall_device) as [f|]; [destruct (readable f) |];
    cbn; try reflexivity.
  destruct dm; [destruct (fork1 h); [destruct (fork2 h) | |] |]; cbn;
    try reflexivity;
    destruct (sched_ok h), (mlock_ok h); cbn;
    destruct (loop script s) as [[e s2] o2]; destruct e; cbn in *; exact Hl.
Qed.

(** X10. The handle is fixed for the life of the process: whatever is read
    and however [run] ends or waits, [self.device] and
    [self.unload_heads_path] are what they were when [run] started. *)
Theorem handle_is_fixed (dm : bool) (h : Host) (script : list Input) (s : Proc) :
  device (state (run dm h script s)) = device s
  ∧ unload_heads_path (state (run dm h script s)) = unload_heads_path s
  ∧ device (state (loop script s)) = device s
  ∧ unload_heads_path (state (loop script s)) = unload_heads_path s.
Proof.
  rewrite run_eq. cbn zeta.
  pose proof (run_try_device dm h script s) as Hd.
  pose proof (run_try_heads_path dm h script s) as Hp.
  split; [| split; [| split; [apply loop_device | apply loop_heads_path]]].
  - destruct (value (run_try dm h script s)); cbn [state fst snd];
      rewrite ?unpark_device; exact Hd.
  - destruct (value (run_try dm h script s)); cbn [state fst snd];
      rewrite ?unpark_heads_path; exact Hp.
Qed.

(** ** Sensor reads *)

Lemma reads_app (l1 l2 : list Action) : reads (l1 ++ l2) = reads l1 ++ reads l2.
Proof. apply List.filter_app. Qed.

Lemma reads_write_actions (s : Proc) (path text : string) :
  reads (write_actions s path text) = [].
Proof. unfold write_actions. now destruct (write_error s path). Qed.

Lemma reads_unpark_actions (s : Proc) : reads (unpark_actions s) = [].
Proof. unfold unpark_actions. now rewrite reads_app, !reads_write_actions. Qed.

Lemma reads_park_actions (s : Proc) : reads (park_actions s) = [].
Proof. unfold park_actions. now rewrite reads_app, !reads_write_actions. Qed.

Lemma reads_elapse (ms : N) (s : Proc) : reads (actions (elapse ms s)) = [].
Proof.
  rewrite elapse_eq. destruct (alarm s) as [d|]; [| reflexivity].
  destruct (d <=? ms)%N; [| reflexivity]. apply reads_unpark_actions.
Qed.

(** X11. The sensors are consulted afresh at every freefall event and at no
    other time, and the lid file is opened only when [on_ac()] was false:
    the files an iteration opens for reading are the power file, followed
    by the lid file exactly when the power reading is false, for an event,
    and none for any other read result. Consulting them changes nothing. *)
Theorem sensors_are_read_per_event (i : Input) (s : Proc) :
  let r := iteration i s in
  reads (actions r) =
    match result i with
    | Data _ =>
        OpenRead ac_path :: if value (on_ac (state r)) then [] else [OpenRead lid_path]
    | _ => []
    end
  ∧ ∀ t, state (por on_ac lid_open t) = t.
Proof.
  cbn zeta. split; [| apply sensors_state].
  destruct (result i) as [b| | |e] eqn:Hr.
  - rewrite (iteration_data i b s Hr). cbn zeta. cbn [state actions fst snd].
    rewrite !reads_app, reads_elapse, reads_park_actions, sensors_actions.
    match goal with
    | |- context [on_ac (set_alarm ?a ?x)] =>
        rewrite (on_ac_fs (set_alarm a x) x) by reflexivity
    end.
    cbn. destruct (value (on_ac _)); reflexivity.
  - rewrite (iteration_empty i s Hr). cbn [actions snd].
    now rewrite reads_app, reads_elapse.
  - rewrite (iteration_interrupt i s Hr). cbn [actions snd].
    now rewrite reads_app, reads_elapse.
  - destruct (Z.eq_dec (errno e) EINTR) as [He|He].
    + rewrite (iteration_eintr i e s Hr He). apply reads_elapse.
    + rewrite (iteration_error i e s Hr He). cbn [actions snd].
      now rewrite reads_app, reads_elapse.
Qed.
(** ** What the daemon writes, and where *)

Lemma expected_by_writes (heads : string) (l : list Action) :
  Forall (expected_write heads) (writes l) → Forall (expected_write heads) l.
Proof.
  unfold writes. induction l as [|a l IH]; intros H; [constructor |].
  destruct a as [p|p t|out ln|n]; cbn in H;
    try (constructor; [exact I | now apply IH]).
  inversion H; subst. constructor; [assumption | now apply IH].
Qed.

Lemma writes_elapse (ms : N) (s : Proc) :
  writes (actions (elapse ms s)) = []
  ∨ writes (actions (elapse ms s)) =
    [OpenWrite (unload_heads_path s) "0"; OpenWrite led_path "0"].
Proof.
  rewrite elapse_eq. destruct (alarm s) as [d|]; [| now left].
  destruct (d <=? ms)%N; [| now left]. right. cbn [actions snd].
  now rewrite writes_unpark_actions.
Qed.

Lemma expected_unpark (heads : string) :
  Forall (expected_write heads) [OpenWrite heads "0"; OpenWrite led_path "0"].
Proof. repeat constructor; cbn; tauto. Qed.

Lemma expected_park (heads : string) :
  Forall (expected_write heads) [OpenWrite heads "21000"; OpenWrite led_path "1"].
Proof. repeat constructor; cbn; tauto. Qed.

Lemma iteration_writes (i : Input) (s : Proc) :
  writes (actions (iteration i s)) =
  writes (actions (elapse (delay i) (changed i s)))
  ++ match result i with
     | Data _ => [OpenWrite (unload_heads_path s) "21000"; OpenWrite led_path "1"]
     | _ => []
     end.
Proof.
  destruct (result i) as [b| | |e] eqn:Hr.
  - apply (iteration_data_writes i b s Hr).
  - rewrite (iteration_empty i s Hr). cbn [actions snd]. now rewrite writes_app.
  - rewrite (iteration_interrupt i s Hr). cbn [actions snd]. now rewrite writes_app.
  - destruct (Z.eq_dec (errno e) EINTR) as [He|He].
    + rewrite (iteration_eintr i e s Hr He). cbn [actions snd].
      now rewrite app_nil_r.
    + rewrite (iteration_error i e s Hr He). cbn [actions snd].
      now rewrite writes_app.
Qed.

Lemma iteration_writes_expected (i : Input) (s : Proc) :
  Forall (expected_write (unload_heads_path s)) (writes (actions (iteration i s))).
Proof.
  rewrite iteration_writes. apply Forall_app. split.
  - destruct (writes_elapse (delay i) (changed i s)) as [-> | ->];
      [constructor | apply (expected_unpark (unload_heads_path s))].
  - destruct (result i); [apply expected_park | constructor | constructor | constructor].
Qed.

Lemma loop_writes_expected (script : list Input) (s : Proc) :
  Forall (expected_write (unload_heads_path s)) (writes (actions (loop script s))).
Proof.
  revert s. induction script as [|i rest IH]; intros s; [constructor |].
  rewrite loop_cons. cbn zeta.
  destruct (continues (result i)); cbn [actions snd].
  - rewrite writes_app. apply Forall_app. split.
    + apply iteration_writes_expected.
    + rewrite <- (iteration_heads_path i s). apply IH.
  - apply iteration_writes_expected.
Qed.

Lemma run_try_writes (dm : bool) (h : Host) (script : list Input) (s : Proc) :
  writes (actions (run_try dm h script s)) = []
  ∨ writes (actions (run_try dm h script s)) = writes (actions (loop script s)).
Proof.
  unfold run_try, open_read, daemonize, actions. mrun.
  destruct (fs s !! freefall_device) as [f|]; [destruct (readable f) |];
    cbn; try (now left).
  destruct dm; [destruct (fork1 h); [destruct (fork2 h) | |] |]; cbn;
    try (now left);
    destruct (sched_ok h), (mlock_ok h); cbn;
    destruct (loop script s) as [[e s2] o2]; destruct e; cbn;
    rewrite ?app_nil_r; now right.
Qed.

(** X12. In the foreground ([--no-daemon]) the process writes nowhere
    else: every file that [run] opens for writing is the head-park path, to
    write "21000" or "0", or the LED path, to write "1" or "0". In either
    mode the same holds of the loop and of the finally block; [daemonize],
    which opens [/dev/null] for the standard streams, is left aside. *)
Theorem writes_are_confined (h : Host) (script : list Input) (s : Proc) :
  Forall (expected_write (unload_heads_path s)) (actions (run false h script s))
  ∧ Forall (expected_write (unload_heads_path s)) (actions (loop script s))
  ∧ Forall (expected_write (unload_heads_path s)) (actions (run_finally s)).
Proof.
  split; [| split].
  - apply expected_by_writes. rewrite run_eq. cbn zeta.
    assert (Ht : Forall (expected_write (unload_heads_path s))
                   (writes (actions (run_try false h script s)))).
    { destruct (run_try_writes false h script s) as [-> | ->];
        [constructor | apply loop_writes_expected]. }
    destruct (value (run_try false h script s)); cbn [actions snd]; try exact Ht;
      rewrite writes_app, writes_unpark_actions, run_try_heads_path;
      apply Forall_app; (split; [exact Ht | apply expected_unpark]).
  - apply expected_by_writes, loop_writes_expected.
  - apply expected_by_writes. rewrite run_finally_eq. cbn [actions snd].
    rewrite writes_unpark_actions. apply expected_unpark.
Qed.

(** ** Files the daemon leaves alone *)

Lemma unpark_lookup_other (s : Proc) (p : string) :
  p ≠ unload_heads_path s → p ≠ led_path → fs (unpark s) !! p = fs s !! p.
Proof.
  intros H1 H2. unfold unpark. rewrite !write_file_lookup.
  now rewrite !decide_False by assumption.
Qed.

Lemma park_lookup_other (s : Proc) (p : string) :
  p ≠ unload_heads_path s → p ≠ led_path → fs (park s) !! p = fs s !! p.
Proof.
  intros H1 H2. unfold park. rewrite !write_file_lookup.
  now rewrite !decide_False by assumption.
Qed.

Lemma elapse_lookup_other (ms : N) (s : Proc) (p : string) :
  p ≠ unload_heads_path s → p ≠ led_path →
  fs (state (elapse ms s)) !! p = fs s !! p.
Proof.
  intros H1 H2. rewrite elapse_eq. destruct (alarm s) as [d|]; [| reflexivity].
  destruct (d <=? ms)%N; [| reflexivity]. cbn [state fst snd].
  change (fs (set_protection_active false (unpark (set_alarm None s))))
    with (fs (unpark (set_alarm None s))).
  now rewrite unpark_lookup_other.
Qed.

Lemma iteration_lookup_other (i : Input) (s : Proc) (p : string) :
  p ≠ unload_heads_path s → p ≠ led_path →
  fs (state (iteration i s)) !! p = fs (changed i s) !! p.
Proof.
  intros H1 H2.
  pose proof (elapse_lookup_other (delay i) (changed i s) p H1 H2) as He.
  pose proof (elapse_heads_path (delay i) (changed i s)) as Hp. cbn in Hp.
  destruct (result i) as [b| | |e] eqn:Hr.
  - rewrite (iteration_data i b s Hr). cbn zeta. cbn [state fst snd].
    change (fs (set_alarm ?a (set_protection_active ?b ?x))) with (fs x).
    rewrite park_lookup_other; [exact He | cbn; now rewrite Hp | assumption].
  - now rewrite (iteration_empty i s Hr).
  - now rewrite (iteration_interrupt i s Hr).
  - destruct (Z.eq_dec (errno e) EINTR) as [Hi|Hi].
    + now rewrite (iteration_eintr i e s Hr Hi).
    + now rewrite (iteration_error i e s Hr Hi).
Qed.

Lemma loop_lookup_other (script : list Input) (s : Proc) (p : string) :
  Forall (λ i, changes i = []) script →
  p ≠ unload_heads_path s → p ≠ led_path →
  fs (state (loop script s)) !! p = fs s !! p.
Proof.
  intros H. revert s. induction H as [|i rest Hi _ IH]; intros s H1 H2;
    [reflexivity |].
  assert (Hit : fs (state (iteration i s)) !! p = fs s !! p).
  { rewrite iteration_lookup_other by assumption. unfold changed.
    now rewrite Hi. }
  rewrite loop_cons. cbn zeta. destruct (continues (result i)); cbn; [| exact Hit].
  rewrite IH; [exact Hit | now rewrite iteration_heads_path | assumption].
Qed.

Lemma run_try_lookup_other (dm : bool) (h : Host) (script : list Input) (s : Proc)
    (p : string) :
  Forall (λ i, changes i = []) script →
  p ≠ unload_heads_path s → p ≠ led_path →
  fs (state (run_try dm h script s)) !! p = fs s !! p.
Proof.
  intros H H1 H2. pose proof (loop_lookup_other script s p H H1 H2) as Hl.
  unfold run_try, open_read, daemonize, state in *. mrun.
  destruct (fs s !! freefall_device) as [f|]; [destruct (readable f) |];
    cbn; try reflexivity.
  destruct dm; [destruct (fork1 h); [destruct (fork2 h) | |] |]; cbn;
    try reflexivity;
    destruct (sched_ok h), (mlock_ok h); cbn;
    destruct (loop script s) as [[e s2] o2]; destruct e; cbn in *; exact Hl.
Qed.

(** X13. Apart from the head-park file and the LED file, the daemon leaves
    every file as it is, permissions included: when the outside world
    changes nothing during the run, any other path holds at the end what it
    held at the start. *)
Theorem other_files_are_untouched (dm : bool) (h : Host) (script : list Input)
    (s : Proc) (p : string) :
  Forall (λ i, changes i = []) script →
  p ≠ unload_heads_path s →
  p ≠ led_path →
  fs (state (run dm h script s)) !! p = fs s !! p.
Proof.
  intros H H1 H2. rewrite run_eq. cbn zeta.
  pose proof (run_try_lookup_other dm h script s p H H1 H2) as Ht.
  destruct (value (run_try dm h script s)); cbn [state fst snd]; try exact Ht;
    (rewrite unpark_lookup_other;
     [exact Ht | now rewrite run_try_heads_path | assumption]).
Qed.

Lemma other_files_are_untouched_witness :
  fs (state (run true root_host fall_then_stop ready)) !! ac_path = Some (rw "0").
Proof.
  rewrite (other_files_are_untouched true root_host fall_then_stop ready ac_path).
  - reflexivity.
  - repeat constructor.
  - discriminate.
  - discriminate.
Defined.
(** ** Daemonizing and privileged setup *)

(** X14. In daemon mode, a process on the parent side of either fork, or one
    whose fork fails, leaves through [sys.exit] inside the try block: it
    never reaches the loop and reads nothing from the event source, but it
    does pass the finally block, so it too writes "0" to the head-park path
    and to the LED path before it exits, with status 0 for a parent and 1
    after a failed fork. *)
Theorem daemonizing_parent_cleans_up (h : Host) (script : list Input) (s : Proc)
    (text : string) :
  value (open_read freefall_device s) = Done text →
  fork1 h ≠ ForkChild ∨ fork2 h ≠ ForkChild →
  let r := run true h script s in
  value r = SystemExit (match fork1 h, fork2 h with
                        | ForkParent, _ => 0
                        | ForkError _, _ => 1
                        | ForkChild, ForkError _ => 1
                        | ForkChild, _ => 0
                        end)
  ∧ state r = state (run_finally s)
  ∧ writes (actions r) =
    [OpenWrite (unload_heads_path s) "0"; OpenWrite led_path "0"]
  ∧ run true h script s = run true h [] s.
Proof.
  intros Hopen Hf.
  assert (Ht : ∀ sc, run_try true h sc s =
    (SystemExit (match fork1 h, fork2 h with
                 | ForkParent, _ => 0
                 | ForkError _, _ => 1
                 | ForkChild, ForkError _ => 1
                 | ForkChild, _ => 0
                 end), s,
     OpenRead freefall_device ::
     match fork1 h, fork2 h with
     | ForkError e, _ => [Print Stderr (ForkFailed e)]
     | ForkChild, ForkError e => [Print Stderr (ForkFailed e)]
     | _, _ => []
     end)).
  { intros sc. unfold run_try, open_read, daemonize, value in *. mrun.
    cbn in Hopen.
    destruct (fs s !! freefall_device) as [f|]; [destruct (readable f) |];
      try discriminate.
    destruct (fork1 h); [destruct (fork2 h) | |]; cbn;
      try reflexivity.
    destruct Hf as [Hf | Hf]; congruence. }
  cbn zeta. rewrite !run_eq. cbn zeta. rewrite !Ht.
  cbn [value state actions fst snd]. rewrite run_finally_eq.
  cbn [state fst snd].
  split; [reflexivity |]. split; [reflexivity |]. split; [| reflexivity].
  rewrite writes_app, writes_unpark_actions.
  destruct (fork1 h); [destruct (fork2 h) | |]; reflexivity.
Qed.

Lemma daemonizing_parent_cleans_up_witness :
  let h := {| euid := 0; fork1 := ForkParent; fork2 := ForkChild;
              sched_ok := true; mlock_ok := true |} in
  value (run true h fall_then_stop ready) = SystemExit 0
  ∧ writes (actions (run true h fall_then_stop ready)) =
    [OpenWrite "/sys/block/sda/device/unload_heads" "0"; OpenWrite led_path "0"].
Proof.
  cbn zeta.
  pose proof (daemonizing_parent_cleans_up
                {| euid := 0; fork1 := ForkParent; fork2 := ForkChild;
                   sched_ok := true; mlock_ok := true |}
                fall_then_stop ready "") as H.
  destruct H as (Hv & _ & Hw & _).
  - reflexivity.
  - left. discriminate.
  - split; [exact Hv | exact Hw].
Defined.

Lemma without_warnings_app (l1 l2 : list Action) :
  without_warnings (l1 ++ l2) = without_warnings l1 ++ without_warnings l2.
Proof. apply List.filter_app. Qed.

Lemma writes_without_warnings (l : list Action) :
  writes (without_warnings l) = writes l.
Proof.
  unfold writes, without_warnings. induction l as [|a l IH]; [reflexivity |].
  destruct a as [p|p t|out ln|n]; cbn; try (now rewrite IH).
  destruct out, ln; cbn; now rewrite IH.
Qed.

Lemma alarm_calls_without_warnings (l : list Action) :
  alarm_calls (without_warnings l) = alarm_calls l.
Proof.
  unfold alarm_calls, without_warnings. induction l as [|a l IH]; [reflexivity |].
  destruct a as [p|p t|out ln|n]; cbn; try (now rewrite IH).
  destruct out, ln; cbn; now rewrite IH.
Qed.

Lemma run_try_privileges (dm : bool) (h1 h2 : Host) (script : list Input) (s : Proc) :
  fork1 h1 = fork1 h2 → fork2 h1 = fork2 h2 →
  value (run_try dm h1 script s) = value (run_try dm h2 script s)
  ∧ state (run_try dm h1 script s) = state (run_try dm h2 script s)
  ∧ without_warnings (actions (run_try dm h1 script s))
    = without_warnings (actions (run_try dm h2 script s)).
Proof.
  intros H1 H2.
  unfold run_try, open_read, daemonize, value, state, actions. mrun.
  rewrite <- H1, <- H2.
  destruct (fs s !! freefall_device) as [f|]; [destruct (readable f) |];
    cbn; try (repeat split; reflexivity).
  destruct dm; [destruct (fork1 h1); [destruct (fork2 h1) | |] |]; cbn;
    try (repeat split; reflexivity);
    destruct (sched_ok h1), (mlock_ok h1), (sched_ok h2), (mlock_ok h2); cbn;
    destruct (loop script s) as [[e s2] o2]; destruct e; cbn;
    repeat split; reflexivity.
Qed.

(** X15. Missing privileges only cost warnings: two hosts that differ in the
    effective user id, in whether real-time scheduling can be set and in
    whether memory can be locked (and agree on what [fork] returns) give
    the same result and the same final state, and the same actions once
    the three warning lines are left out; in particular the same writes
    and the same alarm calls. *)
Theorem privileges_only_add_warnings (dev : string) (nd : bool) (h1 h2 : Host)
    (script : list Input) (s : Proc) :
  fork1 h1 = fork1 h2 →
  fork2 h1 = fork2 h2 →
  let r1 := main dev nd h1 script s in
  let r2 := main dev nd h2 script s in
  value r1 = value r2
  ∧ state r1 = state r2
  ∧ without_warnings (actions r1) = without_warnings (actions r2)
  ∧ writes (actions r1) = writes (actions r2)
  ∧ alarm_calls (actions r1) = alarm_calls (actions r2).
Proof.
  intros H1 H2 r1 r2.
  assert (Hrun : ∀ t, value (run (negb nd) h1 script t) = value (run (negb nd) h2 script t)
                      ∧ state (run (negb nd) h1 script t) = state (run (negb nd) h2 script t)
                      ∧ without_warnings (actions (run (negb nd) h1 script t))
                        = without_warnings (actions (run (negb nd) h2 script t))).
  { intros t. destruct (run_try_privileges (negb nd) h1 h2 script t H1 H2)
      as (Hv & Hs & Ha).
    rewrite !run_eq. cbn zeta. rewrite <- Hv, <- Hs.
    destruct (value (run_try (negb nd) h1 script t)); cbn [value state actions fst snd];
      rewrite ?without_warnings_app, ?Ha; repeat split; reflexivity. }
  assert (Hm : value r1 = value r2 ∧ state r1 = state r2
               ∧ without_warnings (actions r1) = without_warnings (actions r2)).
  { subst r1 r2. unfold main. mrun. unfold value, state, actions.
    destruct (euid h1 =? 0)%Z, (euid h2 =? 0)%Z; cbn;
      destruct (__init__ dev s) as [[[e|[]] s1] o1]; cbn;
      try (repeat split; reflexivity);
      destruct (Hrun s1) as (Hv & Hs & Ha);
      unfold value, state, actions in *;
      destruct (run (negb nd) h1 script s1) as [[v1 t1] a1],
               (run (negb nd) h2 script s1) as [[v2 t2] a2];
      cbn in *; subst;
      change (List.filter (λ a, negb (is_warning a))) with without_warnings in *;
      rewrite ?without_warnings_app, ?Ha; repeat split; reflexivity. }
  destruct Hm as (Hv & Hs & Ha).
  split; [exact Hv |]. split; [exact Hs |]. split; [exact Ha |]. split.
  - now rewrite <- (writes_without_warnings (actions r1)), Ha,
      writes_without_warnings.
  - now rewrite <- (alarm_calls_without_warnings (actions r1)), Ha,
      alarm_calls_without_warnings.
Qed.

Lemma privileges_only_add_warnings_witness :
  let user := {| euid := 1000; fork1 := ForkChild; fork2 := ForkChild;
                 sched_ok := false; mlock_ok := false |} in
  writes (actions (main "/dev/sda" false user fall_then_stop (boot laptop)))
  = writes (actions (main "/dev/sda" false root_host fall_then_stop (boot laptop))).
Proof.
  cbn zeta.
  apply (privileges_only_add_warnings "/dev/sda" false
           {| euid := 1000; fork1 := ForkChild; fork2 := ForkChild;
              sched_ok := false; mlock_ok := false |}
           root_host fall_then_stop (boot laptop)); reflexivity.
Defined.

(** ** What the sensor files must say *)

Lemma str_app_cons (c : ascii) (a b : string) : String c a +:+ b = String c (a +:+ b).
Proof. reflexivity. Qed.

Lemma str_app_nil_l (s : string) : "" +:+ s = s.
Proof. reflexivity. Qed.

Lemma str_app_nil_r (s : string) : s +:+ "" = s.
Proof. induction s as [|c s IH]; [reflexivity |]. now rewrite str_app_cons, IH. Qed.

Lemma str_app_assoc (a b c : string) : (a +:+ b) +:+ c = a +:+ (b +:+ c).
Proof.
  induction a as [|x a IH]; [reflexivity |]. now rewrite !str_app_cons, IH.
Qed.

Lemma prefix_spec (n s : string) :
  String.prefix n s = true ↔ ∃ post, s = n +:+ post.
Proof.
  revert s. induction n as [|c n IH]; intros s.
  - split; [intros _; now exists s | intros _; now destruct s].
  - destruct s as [|d s]; cbn.
    + split; [discriminate | intros [post H]; discriminate].
    + destruct (ascii_dec c d) as [-> | Hne].
      * rewrite IH. split; intros [post H]; exists post.
        -- now rewrite str_app_cons, H.
        -- rewrite str_app_cons in H. now injection H.
      * split; [discriminate |]. intros [post H].
        rewrite str_app_cons in H. congruence.
Qed.

Lemma contains_spec (n s : string) :
  PyStr.contains n s = true ↔ ∃ pre post, s = pre +:+ n +:+ post.
Proof.
  induction s as [|c s IH].
  - cbn [PyStr.contains]. rewrite orb_false_r, prefix_spec. split.
    + intros [post H]. now exists "", post.
    + intros (pre & post & H). destruct pre as [|x pre]; [| discriminate].
      now exists post.
  - cbn [PyStr.contains]. rewrite orb_true_iff, prefix_spec, IH. split.
    + intros [[post H] | (pre & post & H)].
      * now exists "", post.
      * exists (String c pre), post. now rewrite str_app_cons, H.
    + intros (pre & post & H). destruct pre as [|x pre].
      * left. now exists post.
      * right. rewrite str_app_cons in H. injection H as _ H. now exists pre, post.
Qed.

Lemma lower_app (a b : string) : PyStr.lower (a +:+ b) = PyStr.lower a +:+ PyStr.lower b.
Proof.
  induction a as [|c a IH]; [reflexivity |].
  rewrite str_app_cons. cbn [PyStr.lower]. now rewrite IH.
Qed.

Lemma lower_app_inv (t a b : string) :
  PyStr.lower t = a +:+ b →
  ∃ a' b', t = a' +:+ b' ∧ PyStr.lower a' = a ∧ PyStr.lower b' = b.
Proof.
  revert t. induction a as [|c a IH]; intros t H.
  - now exists "", t.
  - destruct t as [|d t]; [discriminate |].
    rewrite str_app_cons in H. cbn [PyStr.lower] in H. injection H as Hc H.
    destruct (IH t H) as (a' & b' & -> & Ha & Hb).
    exists (String d a'), b'. cbn [PyStr.lower]. now rewrite Hc, Ha.
Qed.

Lemma lstrip_decomp (s : string) :
  ∃ ws, all_space ws = true ∧ s = ws +:+ PyStr.lstrip s.
Proof.
  induction s as [|c s (ws & Hws & IH)]; [now exists "" |].
  cbn [PyStr.lstrip]. destruct (PyStr.isspace c) eqn:Hc.
  - exists (String c ws). cbn [all_space]. rewrite Hc, Hws.
    split; [reflexivity |]. now rewrite str_app_cons, <- IH.
  - now exists "".
Qed.

Lemma rstrip_cons (c : ascii) (s : string) :
  PyStr.rstrip (String c s) =
  if all_space (String c s) && all_space (PyStr.rstrip s)
  then "" else String c (PyStr.rstrip s).
Proof.
  cbn [PyStr.rstrip all_space].
  destruct (PyStr.rstrip s) as [|d r] eqn:Hr.
  - cbn [all_space]. rewrite andb_true_r.
    destruct (PyStr.isspace c); cbn; [| reflexivity].
    assert (all_space s = true) as ->; [| reflexivity].
    clear c. revert Hr. induction s as [|x s IH]; [reflexivity |]. cbn.
    destruct (PyStr.rstrip s) as [|y r']; [| discriminate].
    destruct (PyStr.isspace x); [| discriminate]. intros _. now rewrite IH.
  - destruct (PyStr.isspace c && all_space s) eqn:Hall; [| reflexivity].
    exfalso. apply andb_true_iff in Hall as [_ Hs].
    clear c. revert d r Hr. induction s as [|x s IH]; intros d r Hr;
      [discriminate |].
    cbn in Hs. apply andb_true_iff in Hs as [Hx Hs]. cbn in Hr.
    destruct (PyStr.rstrip s) as [|y r'].
    + rewrite Hx in Hr. discriminate.
    + now apply (IH Hs y r').
Qed.

Lemma rstrip_all_space (ws : string) : all_space ws = true → PyStr.rstrip ws = "".
Proof.
  induction ws as [|c ws IH]; [reflexivity |]. intros H.
  rewrite rstrip_cons, H. cbn in H. apply andb_true_iff in H as [_ H].
  now rewrite IH.
Qed.

Lemma all_space_app (a b : string) :
  all_space (a +:+ b) = all_space a && all_space b.
Proof.
  induction a as [|c a IH]; [reflexivity |].
  rewrite str_app_cons. cbn [all_space]. now rewrite IH, andb_assoc.
Qed.

Lemma rstrip_app_nonspace (a : string) (l : ascii) (post : string) :
  PyStr.isspace l = false →
  PyStr.rstrip (a +:+ String l post) = a +:+ String l (PyStr.rstrip post).
Proof.
  intros Hl. induction a as [|c a IH].
  - rewrite !str_app_nil_l, rstrip_cons. cbn [all_space]. now rewrite Hl.
  - rewrite !str_app_cons, rstrip_cons, IH. cbn [all_space].
    rewrite !all_space_app. cbn [all_space]. rewrite Hl.
    now rewrite andb_false_r, !andb_false_r.
Qed.

Lemma rstrip_decomp (s : string) :
  ∃ ws, all_space ws = true ∧ s = PyStr.rstrip s +:+ ws.
Proof.
  induction s as [|c s (ws & Hws & IH)]; [now exists "" |].
  rewrite rstrip_cons.
  destruct (all_space (String c s) && all_space (PyStr.rstrip s)) eqn:H.
  - apply andb_true_iff in H as [H _]. now exists (String c s).
  - exists ws. split; [assumption |]. now rewrite str_app_cons, <- IH.
Qed.

Lemma lstrip_app_space (ws : string) (f : ascii) (rest : string) :
  all_space ws = true → PyStr.isspace f = false →
  PyStr.lstrip (ws +:+ String f rest) = String f rest.
Proof.
  intros Hws Hf. induction ws as [|c ws IH].
  - rewrite str_app_nil_l. cbn. now rewrite Hf.
  - cbn in Hws. apply andb_true_iff in Hws as [Hc Hws].
    rewrite str_app_cons. cbn. rewrite Hc. now apply IH.
Qed.

Lemma lstrip_app_nonspace (pre : string) (f : ascii) (rest : string) :
  PyStr.isspace f = false →
  ∃ pre', PyStr.lstrip (pre +:+ String f rest) = pre' +:+ String f rest.
Proof.
  intros Hf. induction pre as [|c pre [pre' IH]].
  - exists "". rewrite !str_app_nil_l. cbn. now rewrite Hf.
  - rewrite str_app_cons. cbn [PyStr.lstrip].
    destruct (PyStr.isspace c).
    + now exists pre'.
    + now exists (String c pre).
Qed.

Lemma strip_decomp (s : string) :
  ∃ ws1 ws2, all_space ws1 = true ∧ all_space ws2 = true
             ∧ s = ws1 +:+ PyStr.strip s +:+ ws2.
Proof.
  unfold PyStr.strip.
  destruct (rstrip_decomp s) as (ws2 & H2 & Hs).
  destruct (lstrip_decomp (PyStr.rstrip s)) as (ws1 & H1 & Hr).
  exists ws1, ws2. split; [assumption |]. split; [assumption |].
  now rewrite <- str_app_assoc, <- Hr.
Qed.

Lemma lower_char_space (c : ascii) : PyStr.isspace c = true → PyStr.lower_char c = c.
Proof.
  unfold PyStr.isspace, PyStr.lower_char. cbn zeta. intros H.
  destruct ((65 <=? N_of_ascii c) && (N_of_ascii c <=? 90)
            || (192 <=? N_of_ascii c) && (N_of_ascii c <=? 222)
               && negb (N_of_ascii c =? 215))%N eqn:Hup; [| reflexivity].
  exfalso.
  rewrite ?orb_true_iff, ?andb_true_iff, ?N.leb_le, ?N.eqb_eq in H.
  rewrite ?orb_true_iff, ?andb_true_iff, ?N.leb_le in Hup.
  lia.
Qed.

Lemma lower_char_nonspace (c d : ascii) :
  PyStr.lower_char c = d → PyStr.isspace d = false → PyStr.isspace c = false.
Proof.
  intros H Hd. destruct (PyStr.isspace c) eqn:Hc; [| reflexivity].
  rewrite (lower_char_space c Hc) in H. congruence.
Qed.

Lemma lowered_contains_open (t : string) :
  PyStr.contains "open" (PyStr.lower t) = true
  ↔ ∃ pre w post, t = pre +:+ w +:+ post ∧ PyStr.lower w = "open".
Proof.
  rewrite contains_spec. split.
  - intros (a & b & H).
    destruct (lower_app_inv t a _ H) as (pre & t' & -> & _ & H').
    destruct (lower_app_inv t' "open" b H') as (w & post & -> & Hw & _).
    now exists pre, w, post.
  - intros (pre & w & post & -> & Hw).
    exists (PyStr.lower pre), (PyStr.lower post).
    now rewrite !lower_app, Hw.
Qed.

Lemma strip_keeps_word (pre w post : string) :
  PyStr.lower w = "open" →
  ∃ pre' post', PyStr.strip (pre +:+ w +:+ post) = pre' +:+ w +:+ post'.
Proof.
  intros Hw.
  destruct w as [|c1 [|c2 [|c3 [|c4 [|c5 w]]]]]; try discriminate.
  cbn [PyStr.lower] in Hw. injection Hw as H1 _ _ H4.
  assert (Hs1 : PyStr.isspace c1 = false)
    by (apply (lower_char_nonspace c1 _ H1); reflexivity).
  assert (Hs4 : PyStr.isspace c4 = false)
    by (apply (lower_char_nonspace c4 _ H4); reflexivity).
  unfold PyStr.strip.
  replace (pre +:+ String c1 (String c2 (String c3 (String c4 ""))) +:+ post)
    with ((pre +:+ String c1 (String c2 (String c3 ""))) +:+ String c4 post)
    by (now rewrite !str_app_assoc).
  rewrite (rstrip_app_nonspace _ c4 post Hs4).
  rewrite str_app_assoc, !str_app_cons, str_app_nil_l.
  destruct (lstrip_app_nonspace pre c1
              (String c2 (String c3 (String c4 (PyStr.rstrip post)))) Hs1)
    as [pre' Hl].
  exists pre', (PyStr.rstrip post). now rewrite Hl.
Qed.

(** X16. [lid_open] looks for the word "open" anywhere in the lid file, in
    any mix of upper and lower case; the [strip()] makes no difference to
    the answer. So the lid counts as open exactly when the file cannot be
    read or some four consecutive characters of it spell "open" once
    lowered. *)
Theorem lid_open_finds_open_anywhere (s : Proc) (text : string) :
  value (open_read lid_path s) = Done text →
  value (lid_open s) = PyStr.contains "open" (PyStr.lower text)
  ∧ (value (lid_open s) = true
     ↔ ∃ pre w post, text = pre +:+ w +:+ post ∧ PyStr.lower w = "open").
Proof.
  intros Hopen.
  assert (Hv : value (lid_open s)
               = PyStr.contains "open" (PyStr.lower (PyStr.strip text))).
  { unfold lid_open, open_read, value in *. mrun. cbn in Hopen.
    destruct (fs s !! lid_path) as [f|]; [destruct (readable f) |];
      try discriminate.
    injection Hopen as ->. reflexivity. }
  assert (Hiff : PyStr.contains "open" (PyStr.lower (PyStr.strip text)) = true
                 ↔ ∃ pre w post, text = pre +:+ w +:+ post ∧ PyStr.lower w = "open").
  { rewrite lowered_contains_open. split.
    - intros (pre & w & post & Hs & Hw).
      destruct (strip_decomp text) as (ws1 & ws2 & _ & _ & Ht).
      exists (ws1 +:+ pre), w, (post +:+ ws2). split; [| assumption].
      rewrite Ht at 1. rewrite Hs. now rewrite !str_app_assoc.
    - intros (pre & w & post & -> & Hw).
      destruct (strip_keeps_word pre w post Hw) as (pre' & post' & Hs).
      now exists pre', w, post'. }
  split; [| now rewrite Hv].
  rewrite Hv. apply eq_true_iff_eq. now rewrite Hiff, lowered_contains_open.
Qed.

Lemma lid_open_finds_open_anywhere_witness :
  value (lid_open (ready_with "0" "  State:  OPEN  ")) = true.
Proof.
  apply (lid_open_finds_open_anywhere (ready_with "0" "  State:  OPEN  ")
           "  State:  OPEN  ").
  - vm_compute. reflexivity.
  - exists "  State:  ", "OPEN", "  ". split; reflexivity.
Defined.

(** X17. When the power file is read as the text [text], [on_ac] reports
    AC power exactly when [text] is the single character "1" with nothing
    but white space around it: characters for which [str.isspace] holds,
    which below U+0100 are TAB..CR, FS..US, SPACE, NEL and NBSP. *)
Theorem on_ac_wants_a_trimmed_one (s : Proc) (text : string) :
  value (open_read ac_path s) = Done text →
  (value (on_ac s) = true
   ↔ ∃ ws1 ws2, all_space ws1 = true ∧ all_space ws2 = true
                ∧ text = ws1 +:+ "1" +:+ ws2).
Proof.
  intros Hopen.
  assert (Hv : value (on_ac s) = String.eqb (PyStr.strip text) "1").
  { unfold on_ac, open_read, value in *. mrun. cbn in Hopen.
    destruct (fs s !! ac_path) as [f|]; [destruct (readable f) |];
      try discriminate.
    injection Hopen as ->. reflexivity. }
  rewrite Hv, String.eqb_eq. split.
  - intros Hs. destruct (strip_decomp text) as (ws1 & ws2 & H1 & H2 & Ht).
    exists ws1, ws2. rewrite Hs in Ht. now repeat split.
  - intros (ws1 & ws2 & H1 & H2 & ->).
    unfold PyStr.strip.
    change ("1" +:+ ws2) with (String "1" ws2).
    rewrite (rstrip_app_nonspace ws1 "1" ws2 eq_refl).
    rewrite (rstrip_all_space ws2 H2).
    now apply lstrip_app_space.
Qed.

Lemma on_ac_wants_a_trimmed_one_witness :
  value (on_ac (ready_with " 1
" "state:      closed")) = true.
Proof.
  apply (on_ac_wants_a_trimmed_one (ready_with " 1
" "state:      closed") " 1
").
  - vm_compute. reflexivity.
  - exists " ", "
". repeat split.
Defined.
(** * Properties of setup.py *)

Ltac srun :=
  unfold Setup.attempt, Setup.remove_if_present;
  unfold Setup.print, Setup.print_line, Setup.system, Setup.exists_,
    Setup.copy2, Setup.chmod_exec, Setup.write, Setup.unlink;
  unfold mbind, mret, Setup.M_bind, Setup.M_ret;
  cbn beta iota zeta.

Ltac sstep := cbn beta iota zeta delta [Setup.value Setup.files Setup.actions fst snd].

Lemma setup_install_needs_root (h : Setup.Host) (w : gmap string Setup.File) :
  Setup.euid h ≠ 0%Z →
  Setup.install_daemon h w =
  (1%Z, w,
   [Setup.Print Stderr (Setup.Text "Error: Installation requires root privileges");
    Setup.Print Stderr (Setup.Text "Please run: sudo python3 setup.py install")]).
Proof.
  intros H. unfold Setup.install_daemon. apply Z.eqb_neq in H. rewrite H.
  reflexivity.
Qed.

Lemma setup_uninstall_needs_root (h : Setup.Host) (w : gmap string Setup.File) :
  Setup.euid h ≠ 0%Z →
  Setup.uninstall_daemon h w =
  (1%Z, w,
   [Setup.Print Stderr (Setup.Text "Error: Uninstallation requires root privileges");
    Setup.Print Stderr (Setup.Text "Please run: sudo python3 setup.py uninstall")]).
Proof.
  intros H. unfold Setup.uninstall_daemon. apply Z.eqb_neq in H. rewrite H.
  reflexivity.
Qed.

(** X18. [setup.py] touches the system only for root and only for the
    commands "install" and "uninstall", which it accepts in any letter
    case: with any other user, argument count or command, [main] returns 1,
    changes no file and calls nothing but [print]. *)
Theorem setup_main_guards (h : Setup.Host) (argv : list string)
    (w : gmap string Setup.File) :
  (Setup.euid h ≠ 0%Z ∨ ¬ Setup.valid argv →
     Setup.value (Setup.main h argv w) = 1%Z
     ∧ Setup.files (Setup.main h argv w) = w
     ∧ Forall (λ a, Setup.touches a = false) (Setup.actions (Setup.main h argv w)))
  ∧ (∀ prog arg, argv = [prog; arg] →
       (PyStr.lower arg = "install" → Setup.main h argv w = Setup.install_daemon h w)
       ∧ (PyStr.lower arg = "uninstall" →
          Setup.main h argv w = Setup.uninstall_daemon h w)).
Proof.
  split.
  - intros H.
    destruct argv as [|prog [|arg [|x argv]]];
      try solve [cbn; repeat split; repeat constructor].
    unfold Setup.main.
    destruct (String.eqb_spec (PyStr.lower arg) "install") as [Hi|Hi];
      [| destruct (String.eqb_spec (PyStr.lower arg) "uninstall") as [Hu|Hu]].
    + destruct H as [H | H]; [| exfalso; apply H; exists prog, arg; auto].
      rewrite (setup_install_needs_root h w H). cbn.
      repeat split; repeat constructor.
    + destruct H as [H | H]; [| exfalso; apply H; exists prog, arg; auto].
      rewrite (setup_uninstall_needs_root h w H). cbn.
      repeat split; repeat constructor.
    + cbn. repeat split; repeat constructor.
  - intros prog arg -> . unfold Setup.main. split; intros H; rewrite H.
    + reflexivity.
    + reflexivity.
Qed.

Lemma setup_main_guards_witness :
  Setup.files (Setup.main Setup.root ["setup.py"; "remove"] Setup.checkout)
  = Setup.checkout
  ∧ Setup.main Setup.root ["setup.py"; "INSTALL"] Setup.checkout
    = Setup.install_daemon Setup.root Setup.checkout.
Proof.
  pose proof (setup_main_guards Setup.root ["setup.py"; "remove"] Setup.checkout)
    as [H _].
  pose proof (setup_main_guards Setup.root ["setup.py"; "INSTALL"] Setup.checkout)
    as [_ H'].
  split.
  - apply H. right. intros (prog & arg & [= _ <-] & [Hi | Hu]); discriminate.
  - apply (H' "setup.py" "INSTALL"); reflexivity.
Defined.

Lemma setup_target_paths_differ : Setup.target_service ≠ Setup.target_bin.
Proof. discriminate. Qed.

Lemma setup_install_as_root (h : Setup.Host) (w : gmap string Setup.File) :
  Setup.euid h = 0%Z →
  Setup.install_daemon h w =
  (Setup.print Stdout ("Installing " +:+ Setup.source_file h +:+ " to " +:+ Setup.target_bin);;
   Setup.attempt Setup.InstallationFailed
     (Setup.copy2 h (Setup.source_file h) Setup.target_bin) (
   Setup.attempt Setup.InstallationFailed (Setup.chmod_exec h Setup.target_bin) (
   Setup.print Stdout ("Creating systemd service file: " +:+ Setup.target_service);;
   Setup.attempt Setup.InstallationFailed
     (Setup.write h Setup.target_service Setup.service_content) (
   Setup.system "systemctl daemon-reload";;
   Setup.print Stdout "Installation completed successfully!";;
   Setup.print Stdout "To start the service:";;
   Setup.print Stdout "  sudo systemctl start hp-disk-protection";;
   Setup.print Stdout "To enable on boot:";;
   Setup.print Stdout "  sudo systemctl enable hp-disk-protection";;
   mret 0%Z)))) w.
Proof. intros H. unfold Setup.install_daemon. now rewrite H. Qed.

(** X19. As root, with the daemon's source file present (and not itself the
    target) and no operation refused, [install_daemon] returns 0; the
    installed binary has the text of the source and its mode with the
    owner-execute bit added, the unit file holds the service text, every
    other file is as before, and the system is touched by exactly the
    copy, the chmod, the write and one "systemctl daemon-reload", in this
    order. *)
Theorem setup_install_succeeds (h : Setup.Host) (w : gmap string Setup.File)
    (f : Setup.File) :
  Setup.euid h = 0%Z →
  w !! Setup.source_file h = Some f →
  Setup.source_file h ≠ Setup.target_bin →
  Setup.refuses h (Setup.Copy (Setup.source_file h) Setup.target_bin) = false →
  Setup.refuses h (Setup.Chmod Setup.target_bin (Z.lor (Setup.mode f) 64)) = false →
  Setup.refuses h (Setup.Write Setup.target_service Setup.service_content) = false →
  let r := Setup.install_daemon h w in
  Setup.value r = 0%Z
  ∧ Setup.files r !! Setup.target_bin
    = Some {| Setup.text := Setup.text f; Setup.mode := Z.lor (Setup.mode f) 64 |}
  ∧ (∃ m, Setup.files r !! Setup.target_service
          = Some {| Setup.text := Setup.service_content; Setup.mode := m |})
  ∧ (∀ p, p ≠ Setup.target_bin → p ≠ Setup.target_service →
          Setup.files r !! p = w !! p)
  ∧ List.filter Setup.touches (Setup.actions r) =
    [Setup.Copy (Setup.source_file h) Setup.target_bin;
     Setup.Chmod Setup.target_bin (Z.lor (Setup.mode f) 64);
     Setup.Write Setup.target_service Setup.service_content;
     Setup.System "systemctl daemon-reload"].
Proof.
  intros Hroot Hsrc Hne Hcopy Hchmod Hwrite r. subst r.
  rewrite (setup_install_as_root h w Hroot). srun.
  rewrite Hsrc, bool_decide_false, Hcopy by assumption. sstep.
  rewrite lookup_insert_eq. sstep.
  change Setup.S_IEXEC with 64%Z. cbn [Setup.mode Setup.text]. rewrite Hchmod.
  sstep. rewrite Hwrite. sstep.
  split; [reflexivity |]. split; [| split; [| split]].
  - rewrite lookup_insert_ne by apply setup_target_paths_differ.
    now rewrite lookup_insert_eq.
  - eexists. now rewrite lookup_insert_eq.
  - intros p Hb Hs. now rewrite !lookup_insert_ne by congruence.
  - reflexivity.
Qed.

Lemma setup_install_succeeds_witness :
  Setup.value (Setup.install_daemon Setup.root Setup.checkout) = 0%Z
  ∧ Setup.files (Setup.install_daemon Setup.root Setup.checkout) !! Setup.target_bin
    = Some {| Setup.text := "#!/usr/bin/env python3"; Setup.mode := 33252 |}.
Proof.
  pose proof (setup_install_succeeds Setup.root Setup.checkout
                {| Setup.text := "#!/usr/bin/env python3"; Setup.mode := 33188 |})
    as H.
  destruct H as (Hv & Hb & _).
  - reflexivity.
  - reflexivity.
  - discriminate.
  - reflexivity.
  - reflexivity.
  - reflexivity.
  - split; [exact Hv | exact Hb].
Defined.

(** X20. As root, [install_daemon] returns 0 only if the source file is
    present, is not the target itself, and the copy, the chmod and the write
    are not refused; otherwise it returns 1. It does not undo what it did:
    when only the write of the unit file is refused, the binary stays
    installed and "systemctl daemon-reload" is not called; when the source
    file is missing, no file is changed. *)
Theorem setup_install_failure (h : Setup.Host) (w : gmap string Setup.File) :
  Setup.euid h = 0%Z →
  let r := Setup.install_daemon h w in
  (Setup.value r = 0%Z ∨ Setup.value r = 1%Z)
  ∧ (Setup.value r = 0%Z →
     ∃ f, w !! Setup.source_file h = Some f
          ∧ Setup.source_file h ≠ Setup.target_bin
          ∧ Setup.refuses h (Setup.Copy (Setup.source_file h) Setup.target_bin) = false
          ∧ Setup.refuses h (Setup.Chmod Setup.target_bin (Z.lor (Setup.mode f) 64)) = false
          ∧ Setup.refuses h (Setup.Write Setup.target_service Setup.service_content) = false)
  ∧ (w !! Setup.source_file h = None →
     Setup.value r = 1%Z ∧ Setup.files r = w
     ∧ ¬ In (Setup.System "systemctl daemon-reload") (Setup.actions r))
  ∧ (∀ f, w !! Setup.source_file h = Some f →
          Setup.source_file h ≠ Setup.target_bin →
          Setup.refuses h (Setup.Copy (Setup.source_file h) Setup.target_bin) = false →
          Setup.refuses h (Setup.Chmod Setup.target_bin (Z.lor (Setup.mode f) 64)) = false →
          Setup.refuses h (Setup.Write Setup.target_service Setup.service_content) = true →
          Setup.value r = 1%Z
          ∧ Setup.files r !! Setup.target_bin
            = Some {| Setup.text := Setup.text f; Setup.mode := Z.lor (Setup.mode f) 64 |}
          ∧ Setup.files r !! Setup.target_service = w !! Setup.target_service
          ∧ ¬ In (Setup.System "systemctl daemon-reload") (Setup.actions r)).
Proof.
  intros Hroot r. subst r. rewrite (setup_install_as_root h w Hroot). srun.
  destruct (w !! Setup.source_file h) as [f|] eqn:Hsrc; sstep.
  2: { split; [now right |]. split; [discriminate |]. split.
       - intros _. repeat split; try reflexivity.
         cbn. intros [H | [H | [H | []]]]; discriminate.
       - intros f [=]. }
  destruct (bool_decide_reflect (Setup.source_file h = Setup.target_bin)) as [Heq|Hne];
    sstep.
  { split; [now right |]. split; [discriminate |]. split; [discriminate |].
    intros g _ Hg. contradiction. }
  destruct (Setup.refuses h (Setup.Copy _ _)) eqn:Hcopy; sstep.
  { split; [now right |]. split; [discriminate |]. split; [discriminate |].
    intros g _ _ [=]. }
  rewrite lookup_insert_eq. sstep.
  change Setup.S_IEXEC with 64%Z. cbn [Setup.mode Setup.text].
  destruct (Setup.refuses h (Setup.Chmod _ _)) eqn:Hchmod; sstep.
  { split; [now right |]. split; [discriminate |]. split; [discriminate |].
    intros g [= <-] _ _ H. congruence. }
  destruct (Setup.refuses h (Setup.Write _ _)) eqn:Hwrite; sstep.
  - split; [now right |]. split; [discriminate |]. split; [discriminate |].
    intros g [= <-] _ _ _ _. split; [reflexivity |]. split; [| split].
    + now rewrite lookup_insert_eq.
    + rewrite !lookup_insert_ne by discriminate. reflexivity.
    + cbn. intros H. repeat (destruct H as [H | H]; [discriminate |]). exact H.
  - split; [now left |]. split; [| split; [discriminate |]].
    + intros _. exists f. repeat split; assumption.
    + intros g [= <-] _ _ _ [=].
Qed.

Lemma setup_install_failure_witness :
  Setup.files (Setup.install_daemon Setup.root ∅) = ∅
  ∧ Setup.value (Setup.install_daemon Setup.root ∅) = 1%Z.
Proof.
  pose proof (setup_install_failure Setup.root ∅ eq_refl) as (_ & _ & H & _).
  destruct (H eq_refl) as (Hv & Hf & _). split; assumption.
Defined.

Lemma setup_remove_if_present (h : Setup.Host) (path : string)
    (w : gmap string Setup.File) :
  Setup.refuses h (Setup.Unlink path) = false →
  Setup.remove_if_present h path w =
  (None, delete path w,
   match w !! path with
   | Some _ => [Setup.Print Stdout (Setup.Text ("Removing " +:+ path)); Setup.Unlink path]
   | None => []
   end).
Proof.
  intros H. srun. destruct (w !! path) as [f|] eqn:Hp.
  - rewrite bool_decide_true by eauto. sstep. rewrite Hp, H. reflexivity.
  - rewrite bool_decide_false by (intros [? ?]; discriminate).
    now rewrite delete_id.
Qed.

Lemma setup_uninstall_as_root (h : Setup.Host) (w : gmap string Setup.File) :
  Setup.euid h = 0%Z →
  Setup.refuses h (Setup.Unlink Setup.target_service) = false →
  Setup.refuses h (Setup.Unlink Setup.target_bin) = false →
  Setup.uninstall_daemon h w =
  (0%Z, delete Setup.target_bin (delete Setup.target_service w),
   [Setup.System "systemctl stop hp-disk-protection 2>/dev/null";
    Setup.System "systemctl disable hp-disk-protection 2>/dev/null"]
   ++ match w !! Setup.target_service with
      | Some _ =>
          [Setup.Print Stdout (Setup.Text ("Removing " +:+ Setup.target_service));
           Setup.Unlink Setup.target_service]
      | None => []
      end
   ++ match w !! Setup.target_bin with
      | Some _ =>
          [Setup.Print Stdout (Setup.Text ("Removing " +:+ Setup.target_bin));
           Setup.Unlink Setup.target_bin]
      | None => []
      end
   ++ [Setup.System "systemctl daemon-reload";
       Setup.Print Stdout (Setup.Text "Uninstallation completed successfully!")]).
Proof.
  intros Hroot Hs Hb. unfold Setup.uninstall_daemon. rewrite Hroot.
  cbn [Z.eqb negb]. unfold Setup.attempt.
  unfold mbind, mret, Setup.M_bind, Setup.M_ret, Setup.system, Setup.print.
  cbn beta iota zeta.
  rewrite (setup_remove_if_present h Setup.target_service w Hs). sstep.
  rewrite (setup_remove_if_present h Setup.target_bin _ Hb). sstep.
  rewrite lookup_delete_ne by discriminate.
  cbn [app]. rewrite ?app_nil_r. reflexivity.
Qed.

(** X21. As root and with no unlink refused, [uninstall_daemon] returns 0
    and leaves neither the binary nor the unit file behind, whether or not
    they were there; every other file is as before. It stops and disables
    the service before it removes anything and reloads systemd afterwards,
    and it unlinks only what exists, so a second run changes nothing. *)
Theorem setup_uninstall_removes (h : Setup.Host) (w : gmap string Setup.File) :
  Setup.euid h = 0%Z →
  Setup.refuses h (Setup.Unlink Setup.target_service) = false →
  Setup.refuses h (Setup.Unlink Setup.target_bin) = false →
  let r := Setup.uninstall_daemon h w in
  Setup.value r = 0%Z
  ∧ Setup.files r !! Setup.target_bin = None
  ∧ Setup.files r !! Setup.target_service = None
  ∧ (∀ p, p ≠ Setup.target_bin → p ≠ Setup.target_service →
          Setup.files r !! p = w !! p)
  ∧ List.filter Setup.touches (Setup.actions r) =
    [Setup.System "systemctl stop hp-disk-protection 2>/dev/null";
     Setup.System "systemctl disable hp-disk-protection 2>/dev/null"]
    ++ (if w !! Setup.target_service is Some _
        then [Setup.Unlink Setup.target_service] else [])
    ++ (if w !! Setup.target_bin is Some _
        then [Setup.Unlink Setup.target_bin] else [])
    ++ [Setup.System "systemctl daemon-reload"]
  ∧ Setup.files (Setup.uninstall_daemon h (Setup.files r)) = Setup.files r.
Proof.
  intros Hroot Hs Hb r. subst r.
  rewrite !(setup_uninstall_as_root h _ Hroot Hs Hb).
  cbn [Setup.value Setup.files Setup.actions fst snd].
  split; [reflexivity |]. split; [apply lookup_delete_eq |].
  split; [rewrite lookup_delete_ne by discriminate; apply lookup_delete_eq |].
  split; [intros p H1 H2; rewrite !lookup_delete_ne by congruence; reflexivity |].
  split.
  - destruct (w !! Setup.target_service), (w !! Setup.target_bin); reflexivity.
  - apply map_eq. intros p.
    destruct (decide (p = Setup.target_bin)) as [-> | H1];
      [| destruct (decide (p = Setup.target_service)) as [-> | H2]];
      repeat (rewrite lookup_delete_eq
              || rewrite lookup_delete_ne by (congruence || discriminate));
      reflexivity.
Qed.

Lemma setup_uninstall_removes_witness :
  let w := Setup.files (Setup.install_daemon Setup.root Setup.checkout) in
  Setup.value (Setup.uninstall_daemon Setup.root w) = 0%Z
  ∧ Setup.files (Setup.uninstall_daemon Setup.root w) !! Setup.target_bin = None.
Proof.
  cbn zeta.
  pose proof (setup_uninstall_removes Setup.root
                (Setup.files (Setup.install_daemon Setup.root Setup.checkout))
                eq_refl eq_refl eq_refl) as (Hv & Hb & _).
  split; assumption.
Defined.

(** X22. Installing and then removing gives back the file tree one started
    from: as root on a host that refuses nothing, when neither target
    exists beforehand and the source file is present and is not one of the
    targets, both commands return 0 and the files after [uninstall_daemon]
    are exactly the files before [install_daemon]. *)
Theorem setup_install_then_uninstall (h : Setup.Host) (w : gmap string Setup.File)
    (f : Setup.File) :
  Setup.euid h = 0%Z →
  (∀ a, Setup.refuses h a = false) →
  w !! Setup.source_file h = Some f →
  w !! Setup.target_bin = None →
  w !! Setup.target_service = None →
  let i := Setup.install_daemon h w in
  let u := Setup.uninstall_daemon h (Setup.files i) in
  Setup.value i = 0%Z ∧ Setup.value u = 0%Z ∧ Setup.files u = w.
Proof.
  intros Hroot Hno Hsrc Hb Hs i u.
  assert (Hne : Setup.source_file h ≠ Setup.target_bin) by congruence.
  destruct (setup_install_succeeds h w f Hroot Hsrc Hne (Hno _) (Hno _) (Hno _))
    as (Hvi & Hib & _ & Hio & _).
  fold i in Hvi, Hib, Hio.
  destruct (setup_uninstall_removes h (Setup.files i) Hroot (Hno _) (Hno _))
    as (Hvu & Hub & Hus & Huo & _).
  fold u in Hvu, Hub, Hus, Huo.
  split; [exact Hvi |]. split; [exact Hvu |].
  apply map_eq. intros p.
  destruct (decide (p = Setup.target_bin)) as [-> | H1]; [congruence |].
  destruct (decide (p = Setup.target_service)) as [-> | H2]; [congruence |].
  now rewrite Huo, Hio.
Qed.

Lemma setup_install_then_uninstall_witness :
  Setup.files (Setup.uninstall_daemon Setup.root
                 (Setup.files (Setup.install_daemon Setup.root Setup.checkout)))
  = Setup.checkout.
Proof.
  apply (setup_install_then_uninstall Setup.root Setup.checkout
           {| Setup.text := "#!/usr/bin/env python3"; Setup.mode := 33188 |}).
  - reflexivity.
  - reflexivity.
  - reflexivity.
  - reflexivity.
  - reflexivity.
Defined.

(** * More invariants of the loop *)

Lemma elapse_alarm_bounded (ms : N) (s : Proc) :
  alarm_bounded s → alarm_bounded (state (elapse ms s)).
Proof.
  intros H d. rewrite elapse_eq. destruct (alarm s) as [d0|] eqn:Ha.
  - destruct (N.leb_spec d0 ms) as [Hle|Hlt]; cbn [state fst snd].
    + cbn. unfold unpark. rewrite !write_file_alarm. discriminate.
    + cbn. intros [= <-]. destruct (H d0 Ha) as [Hp Hd]. split; [exact Hp | lia].
  - cbn [state fst snd]. rewrite Ha. discriminate.
Qed.

Lemma iteration_alarm_bounded (i : Input) (s : Proc) :
  alarm_bounded s → alarm_bounded (state (iteration i s)).
Proof.
  intros H.
  assert (Hc : alarm_bounded (changed i s)) by exact H.
  pose proof (elapse_alarm_bounded (delay i) (changed i s) Hc) as He.
  destruct (result i) as [b| | |e] eqn:Hr.
  - destruct (iteration_data_alarm i b s Hr) as (Hal & Hact & _).
    intros d Hd. rewrite Hal in Hd. injection Hd as <-.
    split; [exact Hact |]. unfold duration. destruct (value _); lia.
  - rewrite (iteration_empty i s Hr). intros d. cbn. discriminate.
  - now rewrite (iteration_interrupt i s Hr).
  - destruct (Z.eq_dec (errno e) EINTR) as [Hi|Hi].
    + now rewrite (iteration_eintr i e s Hr Hi).
    + now rewrite (iteration_error i e s Hr Hi).
Qed.

Lemma loop_alarm_bounded (script : list Input) (s : Proc) :
  alarm_bounded s → alarm_bounded (state (loop script s)).
Proof.
  revert s. induction script as [|i rest IH]; intros s H; [exact H |].
  rewrite loop_cons. cbn zeta.
  destruct (continues (result i)); cbn [state fst snd].
  - apply IH. now apply iteration_alarm_bounded.
  - now apply iteration_alarm_bounded.
Qed.

(** X23. The protection window is bounded: throughout the loop, whatever is
    read, a pending alarm is due in at most 20 seconds and is pending only
    while [protection_active] is true. This holds after every read of a
    process that entered the loop with no alarm pending, as [main] does. *)
Theorem pending_alarm_is_bounded (script : list Input) (s : Proc) (d : N) :
  alarm s = None →
  alarm (state (loop script s)) = Some d →
  protection_active (state (loop script s)) = true ∧ (0 < d <= 20000)%N.
Proof.
  intros Ha Hd. apply (loop_alarm_bounded script s); [| exact Hd].
  intros d0. rewrite Ha. discriminate.
Qed.

Lemma pending_alarm_is_bounded_witness :
  protection_active
    (state (loop [event 100 Byte.x01; after 500 (ReadError {| errno := EINTR |})] ready))
  = true.
Proof.
  apply (pending_alarm_is_bounded
           [event 100 Byte.x01; after 500 (ReadError {| errno := EINTR |})]
           ready 19500%N).
  - reflexivity.
  - vm_compute. reflexivity.
Defined.





(** ** The exit status *)
